(** * th2c: the HTTP/2 client connection ([th2c/connection.py])

    A shallow embedding of [HTTP2ClientConnection] and the properties of its
    connect / read / dispatch / close life cycle.

    The class is callback driven and mutates [self]; it is embedded as
    state-passing code in a small state-and-exception monad over a [world]
    that holds the connection object, the IOLoop clock, the effects performed
    on the collaborators (transport, timers, protocol engine commands, user
    callbacks, stream handlers) and the log.  A Python exception keeps the
    mutations made before it was raised, so [Raise] carries the world too.

    The collaborators are not part of the repository:
    - the protocol engine ([h2.connection.H2Connection]) is an abstract state
      machine, an interface of operations ([H2Engine]);
    - the transport ([tornado.iostream.IOStream]) is an object with an
      [error] attribute and a close callback;
    - a stream handler is an object with a [stream_id] attribute and a
      [handle_event] method whose outcome is all the connection sees. *)

From stdpp Require Import gmap list.
From Stdlib Require Import ZArith Lia String Strings.Byte.

Local Open Scope Z_scope.

(** ** Values shared with the collaborators *)

(** Exceptions the connection raises, catches or passes on as a reason. *)
Inductive exn :=
| KeyError
| AttributeError
| TypeError
| StreamClosedError
| H2Error (code : Z)
| IOError (code : Z)
| HandlerError (code : Z)
| HTTPError (code : Z).

(** The [reason] handed to [on_close]: an exception value or [None]. *)
Abbreviation reason := (option exn).

Inductive result (A : Type) :=
| Ok (a : A)
| Raise (e : exn).
Arguments Ok {A} a.
Arguments Raise {A} e.

(** The classes of [h2.events] the dispatcher tells apart with [isinstance]. *)
Inductive event_class :=
| RemoteSettingsChanged
| ConnectionTerminated
| DataReceived
| OtherEvent.

(** A decoded event.  [ev_oid] is the identity of the Python object (h2 events
    hash by identity), [ev_stream_id] is [getattr(event, 'stream_id', None)]
    and [flow_controlled_length] is read for [DataReceived] only. *)
Record event := {
  ev_oid : positive;
  ev_class : event_class;
  ev_stream_id : option Z;
  flow_controlled_length : Z
}.

(** What [stream.handle_event(event)] under
    [ExceptionStackContext(stream.handle_exception)] amounts to: it returns,
    or it raises and [handle_exception] is called, whose truth value decides
    whether the exception is swallowed or leaves the [with] block. *)
Inductive outcome :=
| Returned
| RaisedSwallowed (e : exn)
| RaisedPropagated (e : exn).

(** A stream handler object, supplied by the caller. *)
Record http_stream := {
  hs_oid : positive;
  hs_stream_id : Z;
  handle_event : event -> outcome
}.

(** A transport object ([IOStream]).  [error] is its mutable [error]
    attribute, [close_raises] the exception its [close()] raises, if any, and
    [close_callback] the reason bound by
    [functools.partial(self.on_close, reason)] once a callback is set. *)
Record iostream := {
  fd : positive;
  error : reason;
  close_raises : option exn;
  close_callback : option reason
}.

(** The TLS parameters built by [parse_ssl_opts]. *)
Record ssl_context_t := {
  no_tlsv1 : bool;
  no_tlsv1_1 : bool;
  no_compression : bool;
  ciphers : string;
  alpn_protocols : list string
}.

(** [_connect_timeout_t] holds [None], the handle returned by [add_timeout]
    (identified by its deadline), or [False] once the timer fired. *)
Inductive timeout_slot :=
| TNone
| THandle (deadline : Z)
| TFalse.

Inductive level := INFO | WARNING | ERROR.

(** Calls made to the collaborators (timer, transport, protocol engine,
    stream handlers, observers, user callbacks), in the order they are made. *)
Inductive effect :=
| AddTimeout (deadline : Z)
| RemoveTimeout (t : timeout_slot)
| TcpConnect (host : string) (port : Z) (ssl_options : option ssl_context_t)
| SetNoDelay (io : positive)
| SetCloseCallback (io : positive) (bound : reason)
| ReadBytes (io : positive) (num_bytes : Z)
| StreamClose (io : positive)
| StreamWrite (io : positive) (data : list Byte.byte)
| NewH2Connection
| InitiateConnection
| UpdateSettings (settings : gmap Z Z)
| ReceiveData (data : list Byte.byte)
| DataToSend
| GetNextAvailableStreamId
| IncrementFlowControlWindow (increment : Z) (stream_id : option Z)
| HandleEvent (stream : positive) (ev : event)
| HandleException (stream : positive) (e : exn)
| EventHandlerCall (handler : positive) (ev : event)
| AddCallbackConnectionReady (cb : option positive)
| ConnectionClosed (cb : positive) (r : reason).

(** ** The protocol engine interface *)

Class H2Engine := {
  h2_state : Type;
  H2Connection : h2_state;
  initiate_connection : h2_state -> h2_state;
  update_settings : gmap Z Z -> h2_state -> h2_state;
  receive_data : list Byte.byte -> h2_state -> result (list event) * h2_state;
  increment_flow_control_window :
    Z -> option Z -> h2_state -> result unit * h2_state;
  data_to_send : h2_state -> list Byte.byte * h2_state;
  get_next_available_stream_id : h2_state -> Z
}.

(** [h2.settings.SettingCodes.ENABLE_PUSH] *)
Definition ENABLE_PUSH : Z := 2.

(** Python truth value of [_connect_timeout_t]. *)
Definition timeout_truthy (t : timeout_slot) : bool :=
  match t with
  | THandle _ => true
  | TNone | TFalse => false
  end.

(** Python truth value of a stream id: [None] and [0] are false. *)
Definition stream_id_truthy (sid : option Z) : bool :=
  match sid with
  | Some z => negb (z =? 0)
  | None => false
  end.

Section Connection.

Context `{E : H2Engine}.

(** ** The connection object *)

Record connection := {
  host : string;
  port : Z;
  on_connection_ready : option positive;
  on_connection_closed : option positive;
  _is_connected : bool;
  timed_out : bool;
  stream : option iostream;
  connect_timeout : option Z;
  _connect_timeout_t : timeout_slot;
  h2conn : option h2_state;
  _ongoing_streams : gmap Z http_stream;
  event_handlers : gmap positive (gset positive);
  ssl_context : option ssl_context_t
}.

Record world := {
  self : connection;
  now : Z;
  effects : list effect;
  logged : list (level * string)
}.

(** ** The monad: state, and exceptions that keep the state *)

Definition M (A : Type) : Type := world -> result A * world.

#[export] Instance M_ret : MRet M := fun A a w => (Ok a, w).

#[export] Instance M_bind : MBind M := fun A B k m w =>
  match m w with
  | (Ok a, w') => k a w'
  | (Raise e, w') => (Raise e, w')
  end.

Definition raise {A} (e : exn) : M A := fun w => (Raise e, w).

(** [try: m except: h] with a bare [except]. *)
Definition try_except {A} (m : M A) (h : exn -> M A) : M A :=
  fun w =>
    match m w with
    | (Ok a, w') => (Ok a, w')
    | (Raise e, w') => h e w'
    end.

Definition get_self : M connection := fun w => (Ok (self w), w).

Definition modify_self (f : connection -> connection) : M unit :=
  fun w =>
    (Ok tt, {| self := f (self w); now := now w;
               effects := effects w; logged := logged w |}).

Definition emit (e : effect) : M unit :=
  fun w =>
    (Ok tt, {| self := self w; now := now w;
               effects := effects w ++ [e]; logged := logged w |}).

Definition log (l : level) (msg : string) : M unit :=
  fun w =>
    (Ok tt, {| self := self w; now := now w;
               effects := effects w; logged := logged w ++ [(l, msg)] |}).

Definition ioloop_time : M Z := fun w => (Ok (now w), w).

(** ** Attribute assignments on [self] *)

Definition set__is_connected (b : bool) (c : connection) : connection :=
  {| host := host c; port := port c;
     on_connection_ready := on_connection_ready c;
     on_connection_closed := on_connection_closed c;
     _is_connected := b; timed_out := timed_out c; stream := stream c;
     connect_timeout := connect_timeout c;
     _connect_timeout_t := _connect_timeout_t c; h2conn := h2conn c;
     _ongoing_streams := _ongoing_streams c;
     event_handlers := event_handlers c; ssl_context := ssl_context c |}.

Definition set_timed_out (b : bool) (c : connection) : connection :=
  {| host := host c; port := port c;
     on_connection_ready := on_connection_ready c;
     on_connection_closed := on_connection_closed c;
     _is_connected := _is_connected c; timed_out := b; stream := stream c;
     connect_timeout := connect_timeout c;
     _connect_timeout_t := _connect_timeout_t c; h2conn := h2conn c;
     _ongoing_streams := _ongoing_streams c;
     event_handlers := event_handlers c; ssl_context := ssl_context c |}.

Definition set_stream (s : option iostream) (c : connection) : connection :=
  {| host := host c; port := port c;
     on_connection_ready := on_connection_ready c;
     on_connection_closed := on_connection_closed c;
     _is_connected := _is_connected c; timed_out := timed_out c; stream := s;
     connect_timeout := connect_timeout c;
     _connect_timeout_t := _connect_timeout_t c; h2conn := h2conn c;
     _ongoing_streams := _ongoing_streams c;
     event_handlers := event_handlers c; ssl_context := ssl_context c |}.

Definition set__connect_timeout_t (t : timeout_slot) (c : connection)
  : connection :=
  {| host := host c; port := port c;
     on_connection_ready := on_connection_ready c;
     on_connection_closed := on_connection_closed c;
     _is_connected := _is_connected c; timed_out := timed_out c;
     stream := stream c; connect_timeout := connect_timeout c;
     _connect_timeout_t := t; h2conn := h2conn c;
     _ongoing_streams := _ongoing_streams c;
     event_handlers := event_handlers c; ssl_context := ssl_context c |}.

Definition set_h2conn (h : option h2_state) (c : connection) : connection :=
  {| host := host c; port := port c;
     on_connection_ready := on_connection_ready c;
     on_connection_closed := on_connection_closed c;
     _is_connected := _is_connected c; timed_out := timed_out c;
     stream := stream c; connect_timeout := connect_timeout c;
     _connect_timeout_t := _connect_timeout_t c; h2conn := h;
     _ongoing_streams := _ongoing_streams c;
     event_handlers := event_handlers c; ssl_context := ssl_context c |}.

Definition set__ongoing_streams (m : gmap Z http_stream) (c : connection)
  : connection :=
  {| host := host c; port := port c;
     on_connection_ready := on_connection_ready c;
     on_connection_closed := on_connection_closed c;
     _is_connected := _is_connected c; timed_out := timed_out c;
     stream := stream c; connect_timeout := connect_timeout c;
     _connect_timeout_t := _connect_timeout_t c; h2conn := h2conn c;
     _ongoing_streams := m;
     event_handlers := event_handlers c; ssl_context := ssl_context c |}.

Definition set_event_handlers (m : gmap positive (gset positive))
  (c : connection) : connection :=
  {| host := host c; port := port c;
     on_connection_ready := on_connection_ready c;
     on_connection_closed := on_connection_closed c;
     _is_connected := _is_connected c; timed_out := timed_out c;
     stream := stream c; connect_timeout := connect_timeout c;
     _connect_timeout_t := _connect_timeout_t c; h2conn := h2conn c;
     _ongoing_streams := _ongoing_streams c;
     event_handlers := m; ssl_context := ssl_context c |}.

(** ** Construction *)

Definition parse_ssl_opts (port : Z) : option ssl_context_t :=
  if port =? 443 then
    Some {| no_tlsv1 := true; no_tlsv1_1 := true; no_compression := true;
            ciphers := "ECDHE+AESGCM"; alpn_protocols := ["h2"%string] |}
  else None.

Definition __init__ (host : string) (port : Z)
  (on_connection_ready on_connection_closed : option positive)
  (connect_timeout : option Z) : connection :=
  {| host := host; port := port;
     on_connection_ready := on_connection_ready;
     on_connection_closed := on_connection_closed;
     _is_connected := false; timed_out := false; stream := None;
     connect_timeout := connect_timeout; _connect_timeout_t := TNone;
     h2conn := None; _ongoing_streams := ∅; event_handlers := ∅;
     ssl_context := parse_ssl_opts port |}.

(** ** Transport and engine calls made through [self] *)

(** [io_stream.close()] *)
Definition iostream_close (io : iostream) : M unit :=
  emit (StreamClose (fd io));;
  match close_raises io with
  | Some e => raise e
  | None => mret tt
  end.

(** [io_stream.set_close_callback(functools.partial(self.on_close, r))]:
    the callback is stored in the transport object. *)
Definition set_close_callback (r : reason) (io : iostream) : iostream :=
  {| fd := fd io; error := error io; close_raises := close_raises io;
     close_callback := Some r |}.

(** [self.h2conn.increment_flow_control_window(increment, stream_id)] *)
Definition h2conn_increment_flow_control_window (increment : Z)
  (stream_id : option Z) : M unit :=
  c ← get_self;
  match h2conn c with
  | None => raise AttributeError
  | Some h =>
      let '(r, h') := increment_flow_control_window increment stream_id h in
      modify_self (set_h2conn (Some h'));;
      emit (IncrementFlowControlWindow increment stream_id);;
      match r with
      | Ok _ => mret tt
      | Raise e => raise e
      end
  end.

(** ** [flush] *)

Definition flush : M unit :=
  c ← get_self;
  match h2conn c with
  | None => raise AttributeError
  | Some h =>
      let '(data, h') := data_to_send h in
      emit DataToSend;;
      modify_self (set_h2conn (Some h'));;
      match data with
      | [] => mret tt
      | _ :: _ =>
          log INFO "Flushing data to IOStream";;
          match stream c with
          | None => raise AttributeError
          | Some io => emit (StreamWrite (fd io) data)
          end
      end
  end.

(** ** [connect] *)

Definition connect : M unit :=
  c ← get_self;
  if timeout_truthy (_connect_timeout_t c) then
    log WARNING "Tried to connect while waiting for a connection!"
  else
    modify_self (set_timed_out false);;
    start_time ← ioloop_time;
    match connect_timeout c with
    | None => raise TypeError
    | Some d =>
        emit (AddTimeout (start_time + d));;
        modify_self (set__connect_timeout_t (THandle (start_time + d)));;
        emit (TcpConnect (host c) (port c) (ssl_context c))
    end.

Definition is_connected (c : connection) : bool := _is_connected c.

(** ** [on_connect]

    The calls on the IOLoop, the transport and the engine are recorded in the
    trace and return; [IOLoop.remove_timeout] in particular is recorded with
    the handle it is given, whatever that handle is. *)

Definition on_connect (io_stream : iostream) : M unit :=
  log INFO "IOStream opened";;
  c ← get_self;
  if timed_out c then
    log INFO "IOStream should close, we timed out";;
    iostream_close io_stream
  else
    modify_self (set__is_connected true);;
    emit (RemoveTimeout (_connect_timeout_t c));;
    modify_self (set__connect_timeout_t TNone);;
    modify_self (set_stream (Some io_stream));;
    emit (SetNoDelay (fd io_stream));;
    emit (SetCloseCallback (fd io_stream) (error io_stream));;
    modify_self
      (set_stream (Some (set_close_callback (error io_stream) io_stream)));;
    emit NewH2Connection;;
    modify_self (set_h2conn (Some H2Connection));;
    emit InitiateConnection;;
    modify_self (set_h2conn (Some (initiate_connection H2Connection)));;
    emit (UpdateSettings {[ENABLE_PUSH := 0]});;
    modify_self
      (set_h2conn
         (Some (update_settings {[ENABLE_PUSH := 0]}
                  (initiate_connection H2Connection))));;
    emit (ReadBytes (fd io_stream) 65535);;
    flush;;
    emit (AddCallbackConnectionReady (on_connection_ready c)).

(** ** [on_close], [on_timeout], [on_error] *)

Definition on_close (r : reason) : M unit :=
  log INFO "IOStream closed with reason";;
  modify_self (set__is_connected false);;
  modify_self (set_h2conn None);;
  c ← get_self;
  match stream c with
  | Some io =>
      try_except (iostream_close io)
        (fun _ => log ERROR "Error trying to close stream");;
      modify_self (set_stream None)
  | None => mret tt
  end;;
  match on_connection_closed c with
  | Some cb => emit (ConnectionClosed cb r)
  | None => raise TypeError
  end.

Definition on_timeout : M unit :=
  log INFO "HTTP2ClientConnection timed out after {}";;
  modify_self (set_timed_out true);;
  modify_self (set__connect_timeout_t TFalse);;
  on_close (Some (HTTPError 599)).

(** [on_error(phase, typ, val, tb)]; [typ] and [tb] are only logged. *)
Definition on_error (phase : string) (val : exn) : M unit :=
  log ERROR "HTTP2ClientConnection error ";;
  on_close (Some val).

(** ** [process_events] *)

(** The local variables of [process_events]. *)
Record locals := {
  recv_streams : gmap (option Z) Z;
  settings_updated : bool;
  connection_terminated : bool
}.

Definition locals0 : locals :=
  {| recv_streams := ∅; settings_updated := false;
     connection_terminated := false |}.

(** The [isinstance] chain at the head of the loop body. *)
Definition classify (ev : event) (l : locals) : locals :=
  match ev_class ev with
  | RemoteSettingsChanged =>
      {| recv_streams := recv_streams l; settings_updated := true;
         connection_terminated := connection_terminated l |}
  | ConnectionTerminated =>
      {| recv_streams := recv_streams l;
         settings_updated := settings_updated l;
         connection_terminated := true |}
  | DataReceived =>
      {| recv_streams :=
           <[ev_stream_id ev :=
               default 0 (recv_streams l !! ev_stream_id ev)
               + flow_controlled_length ev]> (recv_streams l);
         settings_updated := settings_updated l;
         connection_terminated := connection_terminated l |}
  | OtherEvent => l
  end.

(** [stream_id and stream_id in self._ongoing_streams], giving the entry. *)
Definition ongoing_stream (c : connection) (stream_id : option Z)
  : option http_stream :=
  match stream_id with
  | Some z => if stream_id_truthy stream_id then _ongoing_streams c !! z
              else None
  | None => None
  end.

(** The [if / elif / else] that routes one event to its stream. *)
Definition route (ev : event) : M unit :=
  c ← get_self;
  match ongoing_stream c (ev_stream_id ev) with
  | Some stream =>
      emit (HandleEvent (hs_oid stream) ev);;
      match handle_event stream ev with
      | Returned => mret tt
      | RaisedSwallowed e => emit (HandleException (hs_oid stream) e)
      | RaisedPropagated e =>
          emit (HandleException (hs_oid stream) e);; raise e
      end
  | None =>
      if stream_id_truthy (ev_stream_id ev) then
        log WARNING "Received event for unregistered stream"
      else
        log WARNING "Received event for connection!"
  end.

Fixpoint for_each {A} (f : A -> M unit) (l : list A) : M unit :=
  match l with
  | [] => mret tt
  | x :: rest => f x;; for_each f rest
  end.

(** [if event in self.event_handlers: for ev_handler in ...] *)
Definition fan_out (ev : event) : M unit :=
  c ← get_self;
  match event_handlers c !! ev_oid ev with
  | Some handlers =>
      for_each (fun h => emit (EventHandlerCall h ev)) (elements handlers)
  | None => mret tt
  end.

(** The first loop, [for event in events]. *)
Fixpoint dispatch (events : list event) (l : locals) : M locals :=
  match events with
  | [] => mret l
  | ev :: rest =>
      log INFO "PROCESSING EVENT";;
      let l' := classify ev l in
      route ev;;
      fan_out ev;;
      dispatch rest l'
  end.

(** The second loop, [for stream_id, num_bytes in recv_streams.iteritems()],
    threading [recv_connection].  The order in which a dictionary is iterated
    is not specified; the loop is run on [map_to_list], and what is proved of
    it holds for any order of the entries. *)
Fixpoint credit_streams (items : list (option Z * Z)) (recv_connection : Z)
  : M Z :=
  match items with
  | [] => mret recv_connection
  | (stream_id, num_bytes) :: rest =>
      if num_bytes =? 0 then credit_streams rest recv_connection
      else
        try_except
          (log INFO
             "Trying to increment flow control window for stream {} with {}";;
           h2conn_increment_flow_control_window num_bytes stream_id)
          (fun e =>
             match e with
             | StreamClosedError =>
                 log WARNING
                   "Tried to increment flow control window for closed stream"
             | _ => raise e
             end);;
        credit_streams rest (recv_connection + num_bytes)
  end.

(** Lines 230-247: the credit returned after the loop, and the flush. *)
Definition return_credit (l : locals) : M unit :=
  recv_connection ← credit_streams (map_to_list (recv_streams l)) 0;
  (if recv_connection =? 0 then mret tt
   else
     log INFO "Incrementing window flow control";;
     h2conn_increment_flow_control_window recv_connection None);;
  if negb (recv_connection =? 0) || settings_updated l then flush
  else mret tt.

Definition process_events (events : list event) : M unit :=
  l ← dispatch events locals0;
  return_credit l.

(** ** [data_received] *)

Definition data_received (data : list Byte.byte) : M unit :=
  log INFO "Received data on IOStream";;
  try_except
    (c ← get_self;
     match h2conn c with
     | None => raise AttributeError
     | Some h =>
         let '(r, h') := receive_data data h in
         emit (ReceiveData data);;
         modify_self (set_h2conn (Some h'));;
         match r with
         | Raise e => raise e
         | Ok events =>
             log INFO "Events to process";;
             match events with
             | [] => mret tt
             | _ :: _ => process_events events
             end
         end
     end)
    (fun _ =>
       log INFO
         "Could not process events received on the HTTP/2 connection").

(** ** The stream registry *)

Definition begin_stream (stream : http_stream) : M Z :=
  c ← get_self;
  match h2conn c with
  | None => raise AttributeError
  | Some h =>
      let stream_id := get_next_available_stream_id h in
      emit GetNextAvailableStreamId;;
      modify_self
        (set__ongoing_streams (<[stream_id := stream]> (_ongoing_streams c)));;
      mret stream_id
  end.

(** [del self._ongoing_streams[stream.stream_id]] *)
Definition end_stream (stream : http_stream) : M unit :=
  c ← get_self;
  match _ongoing_streams c !! hs_stream_id stream with
  | Some _ =>
      modify_self
        (set__ongoing_streams
           (delete (hs_stream_id stream) (_ongoing_streams c)))
  | None => raise KeyError
  end.

(** ** Observers *)

(** [self.event_handlers.get(event, set()).add(handler)]: when [event] is a
    key the stored set is updated in place; otherwise the handler goes into
    the fresh [set()] default, which nothing refers to afterwards. *)
Definition add_event_handler (event handler : positive) : M unit :=
  c ← get_self;
  match event_handlers c !! event with
  | Some handlers =>
      modify_self
        (set_event_handlers
           (<[event := {[handler]} ∪ handlers]> (event_handlers c)))
  | None => mret tt
  end.

(** [self.event_handlers.get(event, set()).remove(handler)] *)
Definition remove_event_handler (event handler : positive) : M unit :=
  c ← get_self;
  match event_handlers c !! event with
  | Some handlers =>
      if bool_decide (handler ∈ handlers) then
        modify_self
          (set_event_handlers
             (<[event := handlers ∖ {[handler]}]> (event_handlers c)))
      else raise KeyError
  | None => raise KeyError
  end.

(** ** Transport notifications

    What the transport ([tornado.iostream.IOStream]) does with the callback
    it was given: it runs the close callback when it closes, and when it
    closes on a failure it first stores the failure in its [error]
    attribute. *)

Definition run_close_callback : M unit :=
  c ← get_self;
  match stream c with
  | Some io =>
      match close_callback io with
      | Some bound => on_close bound
      | None => mret tt
      end
  | None => mret tt
  end.

Definition set_error (e : exn) (io : iostream) : iostream :=
  {| fd := fd io; error := Some e; close_raises := close_raises io;
     close_callback := close_callback io |}.

Definition transport_failed (e : exn) : M unit :=
  c ← get_self;
  match stream c with
  | Some io =>
      modify_self (set_stream (Some (set_error e io)));;
      run_close_callback
  | None => mret tt
  end.

End Connection.

(** ** Reading a trace *)

(** The reasons [on_connection_closed] was called with, oldest first. *)
Definition closed_reasons (es : list effect) : list reason :=
  omap (fun e => match e with ConnectionClosed _ r => Some r | _ => None end)
    es.

(** The transports [close()] was called on. *)
Definition closed_transports (es : list effect) : list positive :=
  omap (fun e => match e with StreamClose io => Some io | _ => None end) es.

(** The credit-increment commands, split by scope. *)
Definition stream_increments (es : list effect) : list (Z * Z) :=
  omap (fun e => match e with
                 | IncrementFlowControlWindow n (Some sid) => Some (sid, n)
                 | _ => None
                 end) es.

Definition connection_increments (es : list effect) : list Z :=
  omap (fun e => match e with
                 | IncrementFlowControlWindow n None => Some n
                 | _ => None
                 end) es.

(** The stream handlers events were delivered to. *)
Definition deliveries (es : list effect) : list (positive * event) :=
  omap (fun e => match e with HandleEvent s ev => Some (s, ev) | _ => None end)
    es.

(** ** A small protocol engine to run the connection on

    Its state is the queue of outbound bytes.  A zero byte in the input is
    malformed; otherwise each byte decodes to one event.  Credit for stream
    99 is refused as already closed. *)

Definition toy_decode (i : nat) (b : Byte.byte) : event :=
  match b with
  | x01 => {| ev_oid := Pos.of_succ_nat i; ev_class := RemoteSettingsChanged;
              ev_stream_id := None; flow_controlled_length := 0 |}
  | x02 => {| ev_oid := Pos.of_succ_nat i; ev_class := ConnectionTerminated;
              ev_stream_id := None; flow_controlled_length := 0 |}
  | x03 => {| ev_oid := Pos.of_succ_nat i; ev_class := DataReceived;
              ev_stream_id := Some 1; flow_controlled_length := 10 |}
  | _ => {| ev_oid := Pos.of_succ_nat i; ev_class := OtherEvent;
            ev_stream_id := Some 3; flow_controlled_length := 0 |}
  end.

Definition toy_engine : H2Engine :=
  {| h2_state := list Byte.byte;
     H2Connection := [];
     initiate_connection := fun h => h ++ [x50];
     update_settings := fun _ h => h ++ [x04];
     receive_data := fun data h =>
       if existsb (Byte.eqb x00) data then (Raise (H2Error 1), h ++ [x07])
       else (Ok (imap toy_decode data), h);
     increment_flow_control_window := fun n sid h =>
       if bool_decide (sid = Some 99) then (Raise StreamClosedError, h)
       else (Ok tt, h ++ [x08]);
     data_to_send := fun h => (h, []);
     get_next_available_stream_id := fun _ => 1 |}.

(** A state of the small engine. *)
Definition toy_state (queue : list Byte.byte)
  : h2_state (H2Engine := toy_engine) := queue.

(** A fresh connection to a plaintext port, with both callbacks supplied and
    a timeout of 5. *)
Definition fresh : world (E := toy_engine) :=
  {| self := __init__ "localhost" 8080 (Some 1%positive) (Some 2%positive)
               (Some 5);
     now := 100; effects := []; logged := [] |}.

(** A transport that opened without an error. *)
Definition io0 : iostream :=
  {| fd := 9; error := None; close_raises := None; close_callback := None |}.

(** The world after [connect()], and after the transport then opened. *)
Definition connecting : world (E := toy_engine) := (connect fresh).2.

Definition connected : world (E := toy_engine) :=
  (on_connect io0 connecting).2.

(** A stream handler that accepts every event. *)
Definition quiet (oid : positive) (sid : Z) : http_stream :=
  {| hs_oid := oid; hs_stream_id := sid; handle_event := fun _ => Returned |}.

Definition data_event (oid : positive) (sid n : Z) : event :=
  {| ev_oid := oid; ev_class := DataReceived; ev_stream_id := Some sid;
     flow_controlled_length := n |}.

(** [connected] with three registered streams, 1, 3 and 5. *)
Definition three_streams : world (E := toy_engine) :=
  {| self :=
       set__ongoing_streams
         (<[1 := quiet 11 1]> (<[3 := quiet 13 3]> (<[5 := quiet 15 5]> ∅)))
         (self connected);
     now := now connected; effects := []; logged := [] |}.

(** The batch of the flow-control scenario: streams 1, 3 and 5 receive 10, 0
    and 25 bytes, stream 1 in two deliveries. *)
Definition batch_10_0_25 : list event :=
  [data_event 1 1 4; data_event 2 3 0; data_event 3 5 25; data_event 4 1 6].

(** ** What one run of the closure routine amounts to *)

(** The connection object [on_close] leaves behind. *)
Definition after_close `{E : H2Engine} (c : connection) : connection :=
  set_stream None (set_h2conn None (set__is_connected false c)).

(** The calls [on_close] makes on the transport it holds, and what it logs. *)
Definition close_calls (s : option iostream) : list effect :=
  match s with
  | Some io => [StreamClose (fd io)]
  | None => []
  end.

Definition close_logs (s : option iostream) : list (level * string) :=
  match s with
  | Some io =>
      match close_raises io with
      | Some _ => [(ERROR, "Error trying to close stream"%string)]
      | None => []
      end
  | None => []
  end.

(** ** What one dispatch pass amounts to *)

Section DispatchSpec.

Context `{E : H2Engine}.

(** The calls [route] makes for one event. *)
Definition route_calls (c : connection) (ev : event) : list effect :=
  match ongoing_stream c (ev_stream_id ev) with
  | Some s =>
      HandleEvent (hs_oid s) ev
      :: match handle_event s ev with
         | Returned => []
         | RaisedSwallowed e | RaisedPropagated e =>
             [HandleException (hs_oid s) e]
         end
  | None => []
  end.

(** The calls [fan_out] makes for one event. *)
Definition fan_out_calls (c : connection) (ev : event) : list effect :=
  match event_handlers c !! ev_oid ev with
  | Some handlers => (fun h => EventHandlerCall h ev) <$> elements handlers
  | None => []
  end.

Definition dispatch_calls (c : connection) (events : list event)
  : list effect :=
  flat_map (fun ev => route_calls c ev ++ fan_out_calls c ev) events.

(** The handler of [ev], if it has one, does not let an exception through. *)
Definition well_handled (c : connection) (ev : event) : Prop :=
  match ongoing_stream c (ev_stream_id ev) with
  | Some s =>
      match handle_event s ev with
      | RaisedPropagated _ => False
      | _ => True
      end
  | None => True
  end.

(** The locals after the first loop over [events]. *)
Definition ledger_from (l : locals) (events : list event) : locals :=
  foldl (fun l ev => classify ev l) l events.

Definition ledger (events : list event) : locals := ledger_from locals0 events.

End DispatchSpec.

(** Whether [events] has a data delivery for [sid], and the bytes it brings. *)
Definition is_data_for (sid : option Z) (ev : event) : bool :=
  match ev_class ev with
  | DataReceived => bool_decide (ev_stream_id ev = sid)
  | _ => false
  end.

Definition received_on (sid : option Z) (events : list event) : Z :=
  foldr (fun ev acc => flow_controlled_length ev + acc) 0
    (filter (fun ev => is_data_for sid ev = true) events).

(** The entries of the ledger that are credited, and the sum of a ledger. *)
Definition credited (items : list (option Z * Z)) : list (option Z * Z) :=
  filter (fun p => p.2 <> 0) items.

Definition total (items : list (option Z * Z)) : Z :=
  foldr (fun p acc => p.2 + acc) 0 items.

Definition increment_calls (items : list (option Z * Z)) : list effect :=
  (fun p => IncrementFlowControlWindow p.2 p.1) <$> credited items.

(** ** Further samples and trace readers *)

(** A connection built with the defaults of the constructor: no callbacks and
    no connect timeout. *)
Definition fresh_defaults : world (E := toy_engine) :=
  {| self := __init__ "localhost" 8080 None None None;
     now := 100; effects := []; logged := [] |}.

(** A transport whose [close()] raises. *)
Definition io_bad : iostream :=
  {| fd := 8; error := None; close_raises := Some (IOError 9);
     close_callback := None |}.

(** What [flush] writes for the bytes the engine hands over. *)
Definition pending_writes (io : iostream) (data : list Byte.byte)
  : list effect :=
  match data with
  | [] => []
  | _ :: _ => [StreamWrite (fd io) data]
  end.

(** The observers that were called. *)
Definition observer_calls (es : list effect) : list (positive * event) :=
  omap (fun e => match e with
                 | EventHandlerCall h ev => Some (h, ev)
                 | _ => None
                 end) es.

(** The flow-controlled bytes of all the data deliveries of a batch. *)
Definition data_bytes (events : list event) : Z :=
  foldr (fun ev acc =>
           match ev_class ev with
           | DataReceived => flow_controlled_length ev
           | _ => 0
           end + acc) 0 events.

(** A handler that lets its exception through, one that swallows it, and a
    connected world where they hold streams 1 and 3, with a quiet handler
    registered under the id 0. *)
Definition leaky (oid : positive) (sid : Z) : http_stream :=
  {| hs_oid := oid; hs_stream_id := sid;
     handle_event := fun _ => RaisedPropagated (HandlerError 1) |}.

Definition guarded (oid : positive) (sid : Z) : http_stream :=
  {| hs_oid := oid; hs_stream_id := sid;
     handle_event := fun _ => RaisedSwallowed (HandlerError 2) |}.

Definition mixed_streams : world (E := toy_engine) :=
  {| self :=
       set__ongoing_streams
         (<[0 := quiet 10 0]> (<[1 := leaky 11 1]> (<[3 := guarded 13 3]>
            (<[5 := quiet 15 5]> ∅))))
         (self connected);
     now := now connected; effects := []; logged := [] |}.

(** An engine that refuses an increment above 20 with a flow-control error,
    and a connected world on it with stream 5 registered. *)
Definition strict_engine : H2Engine :=
  {| h2_state := list Byte.byte;
     H2Connection := [];
     initiate_connection := fun h => h ++ [x50];
     update_settings := fun _ h => h ++ [x04];
     receive_data := fun data h => (Ok (imap toy_decode data), h);
     increment_flow_control_window := fun n sid h =>
       if 20 <? n then (Raise (H2Error 3), h) else (Ok tt, h ++ [x08]);
     data_to_send := fun h => (h, []);
     get_next_available_stream_id := fun _ => 1 |}.

Definition strict_streams : world (E := strict_engine) :=
  let w0 :=
    {| self := __init__ "localhost" 8080 (Some 1%positive) (Some 2%positive)
                 (Some 5);
       now := 100; effects := []; logged := [] |} in
  let w1 := (on_connect io0 (connect w0).2).2 in
  {| self := set__ongoing_streams (<[5 := quiet 15 5]> ∅) (self w1);
     now := now w1; effects := []; logged := [] |}.

(** Worlds for the samples: a connection whose transport cannot be closed,
    and one with an empty set of observers stored under the event 1. *)
Definition connected_bad : world (E := toy_engine) :=
  (on_connect io_bad connecting).2.

Definition observed : world (E := toy_engine) :=
  {| self := set_event_handlers (<[1%positive := ∅]> ∅) (self connected);
     now := now connected; effects := []; logged := [] |}.

(** A batch for [mixed_streams]: stream 3 (its handler raises and swallows),
    stream 5, the unregistered stream 7, and the stream id 0. *)
Definition mixed_batch : list event :=
  [data_event 1 3 4; data_event 2 5 6; data_event 3 7 8; data_event 4 0 1].

(** ** Sequences of calls

    The methods are run to completion one after the other, by the owner of
    the connection and by the IOLoop; an exception that leaves a method is
    the caller's, and the connection object stays as the method left it. *)

Inductive call :=
| CallConnect
| CallOnConnect (io_stream : iostream)
| CallOnClose (r : reason)
| CallOnTimeout
| CallOnError (phase : string) (val : exn)
| CallDataReceived (data : list Byte.byte)
| CallProcessEvents (events : list event)
| CallBeginStream (s : http_stream)
| CallEndStream (s : http_stream)
| CallFlush
| CallAddEventHandler (event handler : positive)
| CallRemoveEventHandler (event handler : positive).

Definition run_call `{E : H2Engine} (k : call) (w : world) : world :=
  match k with
  | CallConnect => (connect w).2
  | CallOnConnect io_stream => (on_connect io_stream w).2
  | CallOnClose r => (on_close r w).2
  | CallOnTimeout => (on_timeout w).2
  | CallOnError phase val => (on_error phase val w).2
  | CallDataReceived data => (data_received data w).2
  | CallProcessEvents events => (process_events events w).2
  | CallBeginStream s => (begin_stream s w).2
  | CallEndStream s => (end_stream s w).2
  | CallFlush => (flush w).2
  | CallAddEventHandler event handler => (add_event_handler event handler w).2
  | CallRemoveEventHandler event handler =>
      (remove_event_handler event handler w).2
  end.

Definition run_calls `{E : H2Engine} (ks : list call) (w : world) : world :=
  foldl (fun w k => run_call k w) w ks.

(** The world of a newly built connection. *)
Definition new_world `{E : H2Engine} (name : string) (number : Z)
  (ready closed : option positive) (timeout : option Z) (t : Z) : world :=
  {| self := __init__ name number ready closed timeout; now := t;
     effects := []; logged := [] |}.

(** The calls that start a connect attempt. *)
Definition reconnects (k : call) : bool :=
  match k with
  | CallConnect => true
  | _ => false
  end.

(** The reason a call hands to the closure routine, for the calls that run
    it. *)
Definition closure_reason (k : call) : option reason :=
  match k with
  | CallOnClose r => Some r
  | CallOnTimeout => Some (Some (HTTPError 599))
  | CallOnError _ val => Some (Some val)
  | _ => None
  end.

(** The connection object once the connect timer has fired: [timed_out] is
    up, and there is no transport, no engine and no connected flag. *)
Definition timed_out_state `{E : H2Engine} (c : connection) : Prop :=
  timed_out c = true /\ stream c = None /\ h2conn c = None
  /\ _is_connected c = false.

(** The attributes set at construction and never assigned afterwards. *)
Definition same_config `{E : H2Engine} (c c' : connection) : Prop :=
  host c' = host c /\ port c' = port c
  /\ on_connection_ready c' = on_connection_ready c
  /\ on_connection_closed c' = on_connection_closed c
  /\ connect_timeout c' = connect_timeout c
  /\ ssl_context c' = ssl_context c.

(** ** Frames: what a run may touch *)

(** The calls that drive the engine and write to the transport, the calls
    that deliver an event, and the calls that close. *)
Definition engine_io (e : effect) : Prop :=
  match e with
  | IncrementFlowControlWindow _ _ | DataToSend | StreamWrite _ _
  | ReceiveData _ => True
  | _ => False
  end.

Definition delivery (e : effect) : Prop :=
  match e with
  | HandleEvent _ _ | HandleException _ _ | EventHandlerCall _ _ => True
  | _ => False
  end.

Definition not_closing (e : effect) : Prop :=
  match e with
  | ConnectionClosed _ _ | StreamClose _ => False
  | _ => True
  end.

(** [w'] differs from [w] at most in the state of an engine that is there in
    both or in neither, in the log, and in further calls that all satisfy
    [P]. *)
Definition engine_only `{E : H2Engine} (P : effect -> Prop) (w w' : world)
  : Prop :=
  self w' = set_h2conn (h2conn (self w')) (self w)
  /\ (is_Some (h2conn (self w')) <-> is_Some (h2conn (self w)))
  /\ now w' = now w
  /\ exists es, effects w' = effects w ++ es /\ Forall P es.

(** A computation that keeps within [engine_only P] however it ends. *)
Definition frames `{E : H2Engine} {A} (P : effect -> Prop) (m : M A) : Prop :=
  forall w, engine_only P w (m w).2.

(** The handler an event is delivered to, if any. *)
Definition delivered_to `{E : H2Engine} (c : connection) (ev : event)
  : option (positive * event) :=
  (fun s => (hs_oid s, ev)) <$> ongoing_stream c (ev_stream_id ev).

(** ** Properties *)

(** Unfolds the primitives of the monad and computes. *)
Ltac monad_simpl :=
  unfold mbind, M_bind, mret, M_ret, get_self, modify_self, emit, log, raise,
    try_except, ioloop_time;
  cbn.

Section Properties.

Context `{E : H2Engine}.

Implicit Types (w : world) (c : connection) (r : reason).

(** *** Running a sequence one primitive at a time *)

Lemma bind_emit {A} (e : effect) (k : unit -> M A) w :
  (emit e ≫= k) w
  = k tt {| self := self w; now := now w; effects := effects w ++ [e];
            logged := logged w |}.
Proof. reflexivity. Qed.

Lemma bind_modify_self {A} (f : connection -> connection) (k : unit -> M A)
  w :
  (modify_self f ≫= k) w
  = k tt {| self := f (self w); now := now w; effects := effects w;
            logged := logged w |}.
Proof. reflexivity. Qed.

Lemma bind_log {A} (l : level) (msg : string) (k : unit -> M A) w :
  (log l msg ≫= k) w
  = k tt {| self := self w; now := now w; effects := effects w;
            logged := logged w ++ [(l, msg)] |}.
Proof. reflexivity. Qed.

Lemma bind_get_self {A} (k : connection -> M A) w :
  (get_self ≫= k) w = k (self w) w.
Proof. reflexivity. Qed.

Ltac monad_step :=
  first [ rewrite bind_emit | rewrite bind_modify_self | rewrite bind_log
        | rewrite bind_get_self ];
  cbn [self now effects logged].

(** *** The stream registry *)

Lemma begin_stream_registers w h (s : http_stream) :
  h2conn (self w) = Some h ->
  exists w',
    begin_stream s w = (Ok (get_next_available_stream_id h), w')
    /\ _ongoing_streams (self w') !! get_next_available_stream_id h = Some s.
Proof.
  intros Hh. unfold begin_stream, mbind, M_bind, get_self. cbn.
  rewrite Hh. cbn. eexists. split; [reflexivity|].
  cbn. apply lookup_insert_eq.
Qed.

Lemma end_stream_present_removes w (s s' : http_stream) :
  _ongoing_streams (self w) !! hs_stream_id s = Some s' ->
  exists w',
    end_stream s w = (Ok tt, w')
    /\ _ongoing_streams (self w')
       = delete (hs_stream_id s) (_ongoing_streams (self w)).
Proof.
  intros Hs. unfold end_stream, mbind, M_bind, get_self. cbn.
  rewrite Hs. eexists. split; reflexivity.
Qed.

(** C10 (amended).  For every stream id that is not in the stream registry,
    [end_stream] for that id fails: [del] raises [KeyError].  Nothing is
    changed by the failed call: the registry and the rest of the world are
    the ones before the call. *)
Theorem end_stream_absent_raises w (s : http_stream) :
  _ongoing_streams (self w) !! hs_stream_id s = None ->
  end_stream s w = (Raise KeyError, w).
Proof.
  intros Hs. unfold end_stream, mbind, M_bind, get_self. cbn.
  now rewrite Hs.
Qed.

(** *** Observers *)

(** [add_event_handler] never creates a key of [event_handlers]. *)
Lemma add_event_handler_unregistered w (event handler : positive) :
  event_handlers (self w) !! event = None ->
  add_event_handler event handler w = (Ok tt, w).
Proof.
  intros Hev. unfold add_event_handler, mbind, M_bind, get_self. cbn.
  now rewrite Hev.
Qed.

Lemma remove_event_handler_unregistered w (event handler : positive) :
  event_handlers (self w) !! event = None ->
  remove_event_handler event handler w = (Raise KeyError, w).
Proof.
  intros Hev. unfold remove_event_handler, mbind, M_bind, get_self. cbn.
  now rewrite Hev.
Qed.

(** *** [connect] *)

Lemma connect_arms_timer w (d : Z) :
  timeout_truthy (_connect_timeout_t (self w)) = false ->
  connect_timeout (self w) = Some d ->
  exists w',
    connect w = (Ok tt, w')
    /\ _connect_timeout_t (self w') = THandle (now w + d)
    /\ timed_out (self w') = false
    /\ effects w'
       = effects w ++ [AddTimeout (now w + d);
                       TcpConnect (host (self w)) (port (self w))
                         (ssl_context (self w))].
Proof.
  intros Ht Hd. unfold connect, mbind, M_bind, get_self. cbn.
  rewrite Ht. cbn. rewrite Hd. cbn.
  eexists. split; [reflexivity|]. cbn.
  repeat split. now rewrite <- app_assoc.
Qed.

(** C4 (amended).  While a connect attempt is pending (the connection is
    Connecting: the handle of the connect timer is set), a second call to
    [connect()] is rejected: it only logs a warning, and the connection
    object, the clock and the calls made to the collaborators are unchanged,
    so no timer is added and no connect is started. *)
Theorem connect_while_connecting_rejected w :
  timeout_truthy (_connect_timeout_t (self w)) = true ->
  connect w
  = (Ok tt,
     {| self := self w; now := now w; effects := effects w;
        logged :=
          logged w
          ++ [(WARNING,
               "Tried to connect while waiting for a connection!"%string)] |}).
Proof.
  intros Ht. unfold connect, mbind, M_bind, get_self. cbn.
  now rewrite Ht.
Qed.

(** *** [data_received] *)

(** C2 (amended).  For every sequence of bytes whose decoding raises, the
    error is caught inside [data_received] and logged; the call returns
    normally and the connection goes on: the closure routine is not run,
    [on_connection_closed] is not called (no call is made besides
    [receive_data] itself), and the connection object is unchanged apart from
    the engine's own state. *)
Theorem data_received_decode_error_swallowed w (data : list Byte.byte) h h'
  (e : exn) :
  h2conn (self w) = Some h ->
  receive_data data h = (Raise e, h') ->
  data_received data w
  = (Ok tt,
     {| self := set_h2conn (Some h') (self w); now := now w;
        effects := effects w ++ [ReceiveData data];
        logged :=
          logged w
          ++ [(INFO, "Received data on IOStream"%string);
              (INFO,
               "Could not process events received on the HTTP/2 connection"%string)]
     |}).
Proof.
  intros Hh Hrecv.
  unfold data_received, try_except, mbind, M_bind, get_self. cbn.
  rewrite Hh, Hrecv. monad_simpl. now rewrite <- app_assoc.
Qed.

(** *** [flush] *)

Lemma flush_run w h (io : iostream) :
  h2conn (self w) = Some h ->
  stream (self w) = Some io ->
  exists logs written,
    flush w
    = (Ok tt,
       {| self := set_h2conn (Some (data_to_send h).2) (self w);
          now := now w;
          effects := effects w ++ DataToSend :: written;
          logged := logged w ++ logs |})
    /\ (written = []
        \/ exists data, data <> [] /\ written = [StreamWrite (fd io) data]).
Proof.
  intros Hh Hio. unfold flush. monad_simpl. rewrite Hh.
  destruct (data_to_send h) as [[|b data] h'] eqn:Hsend; cbn.
  - exists [], []. rewrite app_nil_r. auto.
  - rewrite Hio. cbn. do 2 eexists. split.
    + rewrite <- app_assoc. reflexivity.
    + right. eexists. split; [|reflexivity]. done.
Qed.

(** *** The closure routine *)

Lemma for_each_cons {A} (f : A -> M unit) (x : A) (l : list A) w :
  for_each f (x :: l) w
  = match f x w with
    | (Ok _, w') => for_each f l w'
    | (Raise e, w') => (Raise e, w')
    end.
Proof. reflexivity. Qed.

Lemma after_close_idem c : after_close (after_close c) = after_close c.
Proof. reflexivity. Qed.

Lemma after_close_fields c :
  _is_connected (after_close c) = false
  /\ h2conn (after_close c) = None
  /\ stream (after_close c) = None.
Proof. repeat split. Qed.

Lemma closed_reasons_app (es es' : list effect) :
  closed_reasons (es ++ es') = closed_reasons es ++ closed_reasons es'.
Proof. apply omap_app. Qed.

Lemma closed_transports_app (es es' : list effect) :
  closed_transports (es ++ es') = closed_transports es ++ closed_transports es'.
Proof. apply omap_app. Qed.

Lemma closed_reasons_close_calls (s : option iostream) :
  closed_reasons (close_calls s) = [].
Proof. now destruct s. Qed.

(** One run of [on_close]: cleanup, then the callback with this run's reason. *)
Lemma on_close_run w r (cb : positive) :
  on_connection_closed (self w) = Some cb ->
  on_close r w
  = (Ok tt,
     {| self := after_close (self w); now := now w;
        effects :=
          effects w ++ close_calls (stream (self w))
          ++ [ConnectionClosed cb r];
        logged :=
          logged w ++ [(INFO, "IOStream closed with reason"%string)]
          ++ close_logs (stream (self w)) |}).
Proof.
  intros Hcb. destruct w as [c t es ls]. cbn in Hcb.
  unfold on_close, iostream_close. monad_simpl.
  destruct c as [? ? ? ? ? ? [io|] ? ? ? ? ? ?]; cbn in *; subst.
  - destruct (close_raises io); cbn;
      rewrite <- ?app_assoc; cbn; rewrite ?app_nil_r; reflexivity.
  - rewrite <- ?app_assoc; cbn; rewrite ?app_nil_r; reflexivity.
Qed.

(** C1 (amended).  Every invocation of the closure routine calls
    [on_connection_closed] once, with the reason of that invocation: after
    the invocations with reasons [rs] the callback has been called once per
    element of [rs], in order.  Only the cleanup is idempotent: the
    connection object is the one the first invocation left (disconnected, no
    engine, no transport), and the transport is closed by the first
    invocation only. *)
Theorem on_close_calls_back_every_time w (rs : list reason) (cb : positive) :
  on_connection_closed (self w) = Some cb ->
  rs <> [] ->
  exists w',
    for_each on_close rs w = (Ok tt, w')
    /\ closed_reasons (effects w') = closed_reasons (effects w) ++ rs
    /\ self w' = after_close (self w)
    /\ closed_transports (effects w')
       = closed_transports (effects w)
         ++ closed_transports (close_calls (stream (self w))).
Proof.
  intros Hcb Hrs. destruct rs as [|r rs]; [done|]. clear Hrs.
  revert w r Hcb. induction rs as [|r' rs IH]; intros w r Hcb.
  - cbn. unfold mbind, M_bind. rewrite (on_close_run _ _ cb Hcb).
    eexists. split; [reflexivity|]. cbn.
    rewrite !closed_reasons_app, !closed_transports_app.
    rewrite closed_reasons_close_calls. cbn.
    now rewrite app_nil_r.
  - rewrite for_each_cons, (on_close_run _ _ cb Hcb).
    match goal with |- context [for_each _ _ ?w1] =>
      destruct (IH w1 r') as (w' & Hrun & Hreasons & Hself & Htransports)
    end; [exact Hcb|].
    exists w'. split; [exact Hrun|]. cbn in *.
    rewrite Hreasons, Hself, Htransports.
    rewrite !closed_reasons_app, !closed_transports_app.
    rewrite closed_reasons_close_calls. cbn.
    rewrite <- !app_assoc, !app_nil_r. auto.
Qed.

(** The transport opens in time: it is recorded with a close callback bound
    to the value its [error] attribute has at that moment. *)
Lemma on_connect_binds_error_at_connect w (io : iostream) :
  timed_out (self w) = false ->
  exists w',
    on_connect io w = (Ok tt, w')
    /\ stream (self w') = Some (set_close_callback (error io) io)
    /\ _is_connected (self w') = true
    /\ _connect_timeout_t (self w') = TNone
    /\ h2conn (self w') <> None.
Proof.
  intros Ht. unfold on_connect. do 2 monad_step. rewrite Ht.
  repeat monad_step.
  unfold mbind at 1. unfold M_bind at 1.
  match goal with |- context [flush ?w1] =>
    destruct (flush_run w1 _ (set_close_callback (error io) io) eq_refl
                eq_refl) as (logs & written & -> & _)
  end.
  unfold emit. cbn [self now effects logged].
  eexists. split; [reflexivity|]. cbn [self]. repeat split. discriminate.
Qed.

(** When the transport fails, the close callback runs the closure routine
    with the reason that was bound when the callback was set, whatever the
    failure [e] is. *)
Lemma transport_failed_reports_bound_reason w (io : iostream)
  (bound : reason) (cb : positive) (e : exn) :
  stream (self w) = Some io ->
  close_callback io = Some bound ->
  on_connection_closed (self w) = Some cb ->
  exists w',
    transport_failed e w = (Ok tt, w')
    /\ closed_reasons (effects w') = closed_reasons (effects w) ++ [bound].
Proof.
  intros Hs Hbound Hcb. unfold transport_failed.
  unfold mbind at 1. unfold M_bind at 1. unfold get_self at 1.
  rewrite Hs. unfold mbind at 1. unfold M_bind at 1.
  unfold modify_self at 1. unfold run_close_callback.
  unfold mbind at 1. unfold M_bind at 1. unfold get_self at 1.
  cbn [self stream set_stream set_error close_callback]. rewrite Hbound.
  erewrite on_close_run by exact Hcb.
  eexists. split; [reflexivity|]. cbn [self effects stream set_stream].
  rewrite !closed_reasons_app, closed_reasons_close_calls. reflexivity.
Qed.

(** The timer fires while no transport is held. *)
Lemma on_timeout_run w (cb : positive) :
  stream (self w) = None ->
  on_connection_closed (self w) = Some cb ->
  on_timeout w
  = (Ok tt,
     {| self :=
          after_close
            (set__connect_timeout_t TFalse (set_timed_out true (self w)));
        now := now w;
        effects := effects w ++ [ConnectionClosed cb (Some (HTTPError 599))];
        logged :=
          logged w
          ++ [(INFO, "HTTP2ClientConnection timed out after {}"%string);
              (INFO, "IOStream closed with reason"%string)] |}).
Proof.
  intros Hs Hcb. unfold on_timeout.
  unfold mbind, M_bind. unfold log at 1, modify_self at 1 2.
  cbn [self now effects logged].
  erewrite on_close_run by exact Hcb.
  cbn [self now effects logged stream set__connect_timeout_t set_timed_out].
  rewrite Hs. cbn [close_calls close_logs app].
  rewrite <- ?app_assoc, ?app_nil_r. cbn [app]. reflexivity.
Qed.

(** A transport that opens after the timeout is closed and dropped. *)
Lemma on_connect_timed_out w (io : iostream) :
  timed_out (self w) = true ->
  on_connect io w
  = (match close_raises io with Some e => Raise e | None => Ok tt end,
     {| self := self w; now := now w;
        effects := effects w ++ [StreamClose (fd io)];
        logged :=
          logged w
          ++ [(INFO, "IOStream opened"%string);
              (INFO, "IOStream should close, we timed out"%string)] |}).
Proof.
  intros Ht. unfold on_connect.
  unfold mbind at 1 2, M_bind at 1 2. unfold log at 1, get_self at 1.
  cbn [self now effects logged]. rewrite Ht.
  unfold iostream_close, mbind, M_bind, log, emit, raise, mret, M_ret.
  cbn [self now effects logged].
  rewrite <- app_assoc. now destruct (close_raises io).
Qed.

(** *** The dispatcher *)

Lemma route_run w (ev : event) :
  well_handled (self w) ev ->
  exists logs,
    route ev w
    = (Ok tt,
       {| self := self w; now := now w;
          effects := effects w ++ route_calls (self w) ev;
          logged := logged w ++ logs |}).
Proof.
  unfold well_handled, route, route_calls. monad_simpl.
  destruct (ongoing_stream (self w) (ev_stream_id ev)) as [s|]; cbn.
  - destruct (handle_event s ev); intros Hok; cbn; [| |done].
    + exists []. now rewrite app_nil_r.
    + exists []. now rewrite <- app_assoc, app_nil_r.
  - intros _. rewrite app_nil_r.
    destruct (stream_id_truthy (ev_stream_id ev)); eexists; reflexivity.
Qed.

Lemma for_each_emit (f : positive -> effect) (hs : list positive) w :
  for_each (fun h => emit (f h)) hs w
  = (Ok tt,
     {| self := self w; now := now w; effects := effects w ++ (f <$> hs);
        logged := logged w |}).
Proof.
  revert w. induction hs as [|h hs IH]; intros w.
  - destruct w. cbn. monad_simpl. now rewrite app_nil_r.
  - rewrite for_each_cons. unfold emit at 1. rewrite IH. cbn.
    now rewrite <- app_assoc.
Qed.

Lemma fan_out_run w (ev : event) :
  fan_out ev w
  = (Ok tt,
     {| self := self w; now := now w;
        effects := effects w ++ fan_out_calls (self w) ev;
        logged := logged w |}).
Proof.
  unfold fan_out, fan_out_calls. monad_simpl.
  destruct (event_handlers (self w) !! ev_oid ev).
  - apply for_each_emit.
  - destruct w. cbn. now rewrite app_nil_r.
Qed.

Lemma dispatch_cons (ev : event) (rest : list event) (l : locals) w :
  dispatch (ev :: rest) l w
  = (log INFO "PROCESSING EVENT";; route ev;; fan_out ev;;
     dispatch rest (classify ev l)) w.
Proof. reflexivity. Qed.

(** The first loop: every event is routed and fanned out, in order, and the
    connection object is not touched. *)
Lemma dispatch_run (events : list event) (l : locals) w :
  Forall (well_handled (self w)) events ->
  exists logs,
    dispatch events l w
    = (Ok (ledger_from l events),
       {| self := self w; now := now w;
          effects := effects w ++ dispatch_calls (self w) events;
          logged := logged w ++ logs |}).
Proof.
  revert l w. induction events as [|ev rest IH]; intros l w Hall.
  - exists []. destruct w. cbn. monad_simpl. now rewrite !app_nil_r.
  - apply Forall_cons in Hall as [Hev Hrest].
    rewrite dispatch_cons. unfold mbind, M_bind. unfold log at 1.
    match goal with |- context [route ev ?w1] =>
      destruct (route_run w1 ev Hev) as (logs1 & ->)
    end.
    rewrite fan_out_run. cbn.
    match goal with |- context [dispatch rest _ ?w2] =>
      destruct (IH (classify ev l) w2 Hrest) as (logs2 & ->)
    end.
    cbn. eexists. f_equal. f_equal.
    + now rewrite <- !app_assoc.
    + rewrite <- !app_assoc. reflexivity.
Qed.

(** C6 (amended).  The bytes of a data-delivery event are added to the
    flow-control ledger under its stream id whether or not that id is in the
    registry (and no other event changes the ledger).  An event whose stream
    id is present but unregistered is delivered to no stream handler: the
    loop body returns normally, the deliveries and the connection object are
    unchanged, and the diagnostic note is logged; if it is a data delivery
    its bytes are in the ledger all the same. *)
Theorem unregistered_stream_event w (ev : event) (z : Z) (l : locals) :
  ev_stream_id ev = Some z ->
  z <> 0 ->
  _ongoing_streams (self w) !! z = None ->
  exists w',
    dispatch [ev] l w = (Ok (classify ev l), w')
    /\ deliveries (effects w') = deliveries (effects w)
    /\ self w' = self w
    /\ (WARNING, "Received event for unregistered stream"%string)
       ∈ logged w'
    /\ (ev_class ev = DataReceived ->
        recv_streams (classify ev l) !! Some z
        = Some (default 0 (recv_streams l !! Some z)
                + flow_controlled_length ev))
    /\ (ev_class ev <> DataReceived ->
        recv_streams (classify ev l) = recv_streams l).
Proof.
  intros Hsid Hz Hreg.
  assert (Hnone : ongoing_stream (self w) (ev_stream_id ev) = None).
  { unfold ongoing_stream. rewrite Hsid. cbn.
    destruct (z =? 0); [done|]. exact Hreg. }
  assert (Htruthy : stream_id_truthy (ev_stream_id ev) = true).
  { rewrite Hsid. cbn. apply negb_true_iff. now apply Z.eqb_neq. }
  rewrite dispatch_cons. unfold route. monad_simpl.
  rewrite Hnone, Htruthy. cbn.
  rewrite fan_out_run. cbn.
  eexists. split; [reflexivity|]. cbn.
  split; [|split; [reflexivity|split; [|split]]].
  - unfold deliveries, fan_out_calls. rewrite omap_app.
    destruct (event_handlers (self w) !! ev_oid ev) as [hs|]; cbn;
      [|now rewrite app_nil_r].
    induction (elements hs) as [|h hs' IHhs]; cbn;
      [now rewrite app_nil_r|exact IHhs].
  - set_solver.
  - intros Hclass. unfold classify. rewrite Hclass, Hsid. cbn.
    apply lookup_insert_eq.
  - intros Hclass. unfold classify.
    destruct (ev_class ev); try reflexivity. done.
Qed.

(** *** The flow-control ledger *)

Lemma classify_other_stream (ev : event) (l : locals) (sid : option Z) :
  is_data_for sid ev = false ->
  recv_streams (classify ev l) !! sid = recv_streams l !! sid.
Proof.
  unfold is_data_for, classify. destruct (ev_class ev); try reflexivity.
  intros Hne. apply bool_decide_eq_false in Hne. cbn.
  now apply lookup_insert_ne.
Qed.

Lemma classify_this_stream (ev : event) (l : locals) (sid : option Z) :
  is_data_for sid ev = true ->
  recv_streams (classify ev l) !! sid
  = Some (default 0 (recv_streams l !! sid) + flow_controlled_length ev).
Proof.
  unfold is_data_for, classify. destruct (ev_class ev); try discriminate.
  intros Heq. apply bool_decide_eq_true in Heq. subst sid. cbn.
  apply lookup_insert_eq.
Qed.

Lemma received_on_cons (sid : option Z) (ev : event) (rest : list event) :
  received_on sid (ev :: rest)
  = (if is_data_for sid ev then flow_controlled_length ev else 0)
    + received_on sid rest.
Proof.
  unfold received_on. destruct (is_data_for sid ev) eqn:Hd.
  - now rewrite filter_cons_True.
  - rewrite filter_cons_False; [reflexivity|]. now rewrite Hd.
Qed.

Lemma received_on_none (sid : option Z) (events : list event) :
  existsb (is_data_for sid) events = false -> received_on sid events = 0.
Proof.
  induction events as [|ev rest IH]; [reflexivity|]. cbn [existsb].
  intros Hnone. apply orb_false_iff in Hnone as [Hev Hrest].
  rewrite received_on_cons, Hev, (IH Hrest). reflexivity.
Qed.

(** The ledger holds, per stream id, the bytes of all its data deliveries. *)
Lemma ledger_from_lookup (events : list event) (l : locals)
  (sid : option Z) :
  recv_streams (ledger_from l events) !! sid
  = if existsb (is_data_for sid) events
    then Some (default 0 (recv_streams l !! sid) + received_on sid events)
    else recv_streams l !! sid.
Proof.
  revert l. induction events as [|ev rest IH]; intros l; [reflexivity|].
  change (ledger_from l (ev :: rest)) with (ledger_from (classify ev l) rest).
  rewrite IH, received_on_cons. cbn.
  destruct (is_data_for sid ev) eqn:Hd; cbn.
  - rewrite (classify_this_stream _ _ _ Hd). cbn.
    destruct (existsb (is_data_for sid) rest) eqn:Hrest; f_equal; [lia|].
    rewrite (received_on_none _ _ Hrest). lia.
  - now rewrite (classify_other_stream _ _ _ Hd).
Qed.

(** *** Returning credit *)

Lemma increment_run w h (n : Z) (sid : option Z) :
  h2conn (self w) = Some h ->
  h2conn_increment_flow_control_window n sid w
  = ((increment_flow_control_window n sid h).1,
     {| self :=
          set_h2conn (Some (increment_flow_control_window n sid h).2) (self w);
        now := now w;
        effects := effects w ++ [IncrementFlowControlWindow n sid];
        logged := logged w |}).
Proof.
  intros Hh. unfold h2conn_increment_flow_control_window. monad_simpl.
  rewrite Hh. destruct (increment_flow_control_window n sid h) as [[[]|e] h'];
    reflexivity.
Qed.

Lemma increment_calls_zero (sid : option Z) (items : list (option Z * Z)) :
  increment_calls ((sid, 0) :: items) = increment_calls items.
Proof.
  unfold increment_calls, credited. now rewrite filter_cons_False.
Qed.

Lemma increment_calls_nonzero (sid : option Z) (n : Z)
  (items : list (option Z * Z)) :
  n <> 0 ->
  increment_calls ((sid, n) :: items)
  = IncrementFlowControlWindow n sid :: increment_calls items.
Proof.
  intros Hn. unfold increment_calls, credited. now rewrite filter_cons_True.
Qed.

Lemma total_cons (p : option Z * Z) (items : list (option Z * Z)) :
  total (p :: items) = p.2 + total items.
Proof. reflexivity. Qed.

Lemma set_h2conn_twice (a b : option h2_state) c :
  set_h2conn a (set_h2conn b c) = set_h2conn a c.
Proof. reflexivity. Qed.

Lemma set_h2conn_same h c :
  h2conn c = Some h -> set_h2conn (Some h) c = c.
Proof. destruct c. cbn. now intros ->. Qed.

Section Credit.

(** What the engine may answer to a credit increment: a per-stream increment
    succeeds or reports that the stream is closed; a connection-scope one
    succeeds. *)
Hypothesis stream_credit :
  forall (n : Z) (sid : option Z) h,
    (increment_flow_control_window n sid h).1 = Ok tt
    \/ (increment_flow_control_window n sid h).1 = Raise StreamClosedError.

Hypothesis connection_credit :
  forall (n : Z) h, (increment_flow_control_window n None h).1 = Ok tt.

Lemma credit_streams_cons (sid : option Z) (n : Z)
  (rest : list (option Z * Z)) (acc : Z) :
  credit_streams ((sid, n) :: rest) acc
  = if n =? 0 then credit_streams rest acc
    else
      try_except
        (log INFO
           "Trying to increment flow control window for stream {} with {}";;
         h2conn_increment_flow_control_window n sid)
        (fun e =>
           match e with
           | StreamClosedError =>
               log WARNING
                 "Tried to increment flow control window for closed stream"
           | _ => raise e
           end);;
      credit_streams rest (acc + n).
Proof. reflexivity. Qed.

(** One attempt at a per-stream increment, under [try / except]. *)
Lemma try_increment_run w h (n : Z) (sid : option Z) :
  h2conn (self w) = Some h ->
  exists logs,
    try_except
      (log INFO
         "Trying to increment flow control window for stream {} with {}";;
       h2conn_increment_flow_control_window n sid)
      (fun e =>
         match e with
         | StreamClosedError =>
             log WARNING
               "Tried to increment flow control window for closed stream"
         | _ => raise e
         end) w
    = (Ok tt,
       {| self :=
            set_h2conn (Some (increment_flow_control_window n sid h).2)
              (self w);
          now := now w;
          effects := effects w ++ [IncrementFlowControlWindow n sid];
          logged := logged w ++ logs |}).
Proof.
  intros Hh. unfold try_except, mbind, M_bind. unfold log at 1.
  rewrite (increment_run _ h) by exact Hh.
  cbn [self now effects logged fst snd].
  destruct (stream_credit n sid h) as [-> | ->].
  - eexists. reflexivity.
  - unfold log. cbn [self now effects logged].
    eexists. rewrite <- app_assoc. reflexivity.
Qed.

(** The second loop: one increment per nonzero entry, in iteration order. *)
Lemma credit_streams_run (items : list (option Z * Z)) (acc : Z) w h :
  h2conn (self w) = Some h ->
  exists h' logs,
    credit_streams items acc w
    = (Ok (acc + total items),
       {| self := set_h2conn (Some h') (self w); now := now w;
          effects := effects w ++ increment_calls items;
          logged := logged w ++ logs |}).
Proof.
  revert acc w h. induction items as [|[sid n] items IH]; intros acc w h Hh.
  - exists h, []. unfold credit_streams, mret, M_ret, increment_calls, total.
    cbn [credited filter list_filter fmap list_fmap foldr].
    rewrite (set_h2conn_same _ _ Hh), Z.add_0_r, !app_nil_r. now destruct w.
  - rewrite credit_streams_cons. destruct (n =? 0) eqn:Hn.
    + apply Z.eqb_eq in Hn. subst n.
      rewrite increment_calls_zero, total_cons.
      destruct (IH acc w h Hh) as (h' & logs & ->).
      exists h', logs. cbn [snd]. now rewrite Z.add_0_l.
    + apply Z.eqb_neq in Hn.
      rewrite (increment_calls_nonzero _ _ _ Hn), total_cons.
      unfold mbind at 1. unfold M_bind at 1.
      destruct (try_increment_run w h n sid Hh) as (logs1 & ->).
      match goal with |- context [credit_streams items _ ?w1] =>
        destruct (IH (acc + n) w1 (increment_flow_control_window n sid h).2
                    eq_refl) as (h' & logs & ->)
      end.
      cbn [self now effects logged snd]. exists h'. eexists.
      rewrite set_h2conn_twice, <- !app_assoc, Z.add_assoc. reflexivity.
Qed.

Lemma connection_increment_run w h (n : Z) :
  h2conn (self w) = Some h ->
  (log INFO "Incrementing window flow control";;
   h2conn_increment_flow_control_window n None) w
  = (Ok tt,
     {| self :=
          set_h2conn (Some (increment_flow_control_window n None h).2)
            (self w);
        now := now w;
        effects := effects w ++ [IncrementFlowControlWindow n None];
        logged :=
          logged w ++ [(INFO, "Incrementing window flow control"%string)] |}).
Proof.
  intros Hh. unfold mbind, M_bind, log.
  rewrite (increment_run _ h) by exact Hh.
  rewrite connection_credit. reflexivity.
Qed.

Lemma process_events_unfold (events : list event) w :
  process_events events w
  = match dispatch events locals0 w with
    | (Ok l, w') => return_credit l w'
    | (Raise e, w') => (Raise e, w')
    end.
Proof. reflexivity. Qed.

Lemma return_credit_unfold (l : locals) w :
  return_credit l w
  = match credit_streams (map_to_list (recv_streams l)) 0 w with
    | (Ok recv_connection, w') =>
        ((if recv_connection =? 0 then mret tt
          else
            log INFO "Incrementing window flow control";;
            h2conn_increment_flow_control_window recv_connection None);;
         if negb (recv_connection =? 0) || settings_updated l then flush
         else mret tt) w'
    | (Raise e, w') => (Raise e, w')
    end.
Proof. reflexivity. Qed.

(** One dispatch pass on a connected connection, in full: the calls made, in
    order, and the connection object, which only changes in the state of its
    engine. *)
Lemma process_events_run w (events : list event) h (io : iostream) :
  h2conn (self w) = Some h ->
  stream (self w) = Some io ->
  Forall (well_handled (self w)) events ->
  let items := map_to_list (recv_streams (ledger events)) in
  exists h' logs written,
    process_events events w
    = (Ok tt,
       {| self := set_h2conn (Some h') (self w); now := now w;
          effects :=
            effects w ++ dispatch_calls (self w) events
            ++ increment_calls items
            ++ (if total items =? 0 then []
                else [IncrementFlowControlWindow (total items) None])
            ++ (if negb (total items =? 0)
                   || settings_updated (ledger events)
                then DataToSend :: written
                else []);
          logged := logged w ++ logs |})
    /\ (written = []
        \/ exists data, data <> [] /\ written = [StreamWrite (fd io) data]).
Proof.
  intros Hh Hio Hall items.
  rewrite process_events_unfold.
  destruct (dispatch_run events locals0 w Hall) as (logs1 & ->).
  fold (ledger events). rewrite return_credit_unfold. fold items.
  match goal with |- context [credit_streams items 0 ?w1] =>
    destruct (credit_streams_run items 0 w1 h Hh) as (h2 & logs2 & ->)
  end.
  rewrite Z.add_0_l. unfold mbind at 1. unfold M_bind at 1.
  cbn [self now effects logged].
  destruct (total items =? 0) eqn:Htotal.
  - unfold mret at 1. unfold M_ret at 1. cbn [negb orb].
    destruct (settings_updated (ledger events)).
    + match goal with |- context [flush ?w2] =>
        destruct (flush_run w2 h2 io eq_refl Hio)
          as (logs3 & written & -> & Hwritten)
      end.
      cbn [self now effects logged]. rewrite set_h2conn_twice.
      eexists. eexists. exists written. split; [|exact Hwritten].
      rewrite <- !app_assoc. reflexivity.
    + unfold mret, M_ret. rewrite <- !app_assoc, !app_nil_r.
      exists h2. eexists. exists []. split; [reflexivity|now left].
  - rewrite (connection_increment_run _ h2) by reflexivity.
    cbn [negb orb].
    match goal with |- context [flush ?w2] =>
      destruct (flush_run w2 (increment_flow_control_window (total items)
                                None h2).2 io eq_refl Hio)
        as (logs3 & written & -> & Hwritten)
    end.
    cbn [self now effects logged]. rewrite !set_h2conn_twice.
    eexists. eexists. exists written. split; [|exact Hwritten].
    rewrite <- !app_assoc. reflexivity.
Qed.

Lemma closed_reasons_dispatch_calls c (events : list event) :
  closed_reasons (dispatch_calls c events) = []
  /\ closed_transports (dispatch_calls c events) = [].
Proof.
  unfold dispatch_calls. induction events as [|ev rest [IHr IHt]];
    [split; reflexivity|].
  cbn [flat_map]. rewrite !closed_reasons_app, !closed_transports_app, IHr, IHt.
  unfold route_calls, fan_out_calls.
  assert (Hfan : forall hs : list positive,
             closed_reasons ((fun h => EventHandlerCall h ev) <$> hs) = []
             /\ closed_transports ((fun h => EventHandlerCall h ev) <$> hs)
                = []).
  { induction hs as [|h0 hs [IH1 IH2]]; split; auto. }
  destruct (ongoing_stream c (ev_stream_id ev)) as [s|];
    [destruct (handle_event s ev)|];
    destruct (event_handlers c !! ev_oid ev) as [hs|];
    try destruct (Hfan (elements hs)) as [-> ->]; split; reflexivity.
Qed.

Lemma closed_reasons_increment_calls (items : list (option Z * Z)) :
  closed_reasons (increment_calls items) = []
  /\ closed_transports (increment_calls items) = [].
Proof.
  unfold increment_calls.
  induction (credited items) as [|p ps [IH1 IH2]]; split; auto.
Qed.

(** Whatever the batch holds, a connection-termination event included,
    [process_events] performs no closure: the connection stays connected and
    keeps its transport, which is not closed, and [on_connection_closed] is
    not called. *)
Lemma process_events_never_closes w (events : list event) h
  (io : iostream) :
  h2conn (self w) = Some h ->
  stream (self w) = Some io ->
  Forall (well_handled (self w)) events ->
  exists w',
    process_events events w = (Ok tt, w')
    /\ _is_connected (self w') = _is_connected (self w)
    /\ stream (self w') = Some io
    /\ h2conn (self w') <> None
    /\ closed_reasons (effects w') = closed_reasons (effects w)
    /\ closed_transports (effects w') = closed_transports (effects w).
Proof.
  intros Hh Hio Hall.
  destruct (process_events_run w events h io Hh Hio Hall)
    as (h' & logs & written & -> & Hwritten).
  eexists. split; [reflexivity|]. cbn [self now effects logged].
  split; [reflexivity|]. split; [exact Hio|]. split; [discriminate|].
  rewrite !closed_reasons_app, !closed_transports_app.
  destruct (closed_reasons_dispatch_calls (self w) events) as [-> ->].
  destruct (closed_reasons_increment_calls
              (map_to_list (recv_streams (ledger events)))) as [-> ->].
  assert (Hflush : closed_reasons (DataToSend :: written) = []
                   /\ closed_transports (DataToSend :: written) = []).
  { destruct Hwritten as [-> | (data & _ & ->)]; split; reflexivity. }
  destruct Hflush as [Hf1 Hf2].
  destruct (total _ =? 0); cbn [negb orb];
    [destruct (settings_updated _)|];
    rewrite ?Hf1, ?Hf2; cbn [closed_reasons closed_transports omap app];
    rewrite ?app_nil_r; split; reflexivity.
Qed.

(** C5 (amended).  For every decode batch processed on a connected
    connection, the ledger holds per stream id the bytes of all its data
    deliveries in the batch; after the dispatch, exactly one per-stream
    increment is issued for each entry with a nonzero count and none for a
    zero count; when the sum of the counts is nonzero, exactly one
    connection-scope increment with that sum follows, and then a flush; when
    the sum is zero, no connection-scope increment is issued, and a flush is
    made only if a settings update was seen. *)
Theorem credit_returned_per_batch w (events : list event) h
  (io : iostream) :
  h2conn (self w) = Some h ->
  stream (self w) = Some io ->
  Forall (well_handled (self w)) events ->
  let recv := recv_streams (ledger events) in
  let items := map_to_list recv in
  exists w' written,
    process_events events w = (Ok tt, w')
    /\ effects w'
       = effects w ++ dispatch_calls (self w) events
         ++ increment_calls items
         ++ (if total items =? 0 then []
             else [IncrementFlowControlWindow (total items) None])
         ++ (if negb (total items =? 0) || settings_updated (ledger events)
             then DataToSend :: written
             else [])
    /\ (written = []
        \/ exists data, data <> [] /\ written = [StreamWrite (fd io) data])
    /\ (forall sid,
          recv !! sid
          = if existsb (is_data_for sid) events
            then Some (received_on sid events)
            else None)
    /\ NoDup (credited items).*1
    /\ (forall sid n,
          (sid, n) ∈ credited items <-> recv !! sid = Some n /\ n <> 0).
Proof.
  intros Hh Hio Hall recv items.
  destruct (process_events_run w events h io Hh Hio Hall)
    as (h' & logs & written & Hrun & Hwritten).
  eexists. exists written. split; [exact Hrun|].
  split; [reflexivity|]. split; [exact Hwritten|]. split; [|split].
  - intros sid. unfold recv, ledger. rewrite ledger_from_lookup.
    cbn [locals0 recv_streams]. rewrite lookup_empty. cbn [default].
    now rewrite Z.add_0_l.
  - eapply sublist_NoDup; [apply (NoDup_fst_map_to_list recv)|].
    apply fmap_sublist, sublist_filter.
  - intros sid n. unfold credited. rewrite list_elem_of_filter.
    unfold items. rewrite elem_of_map_to_list. cbn [snd]. tauto.
Qed.

End Credit.

End Properties.

(** ** Further properties of the connection *)

(** Runs the primitive at the head of a sequence and projects the world. *)
Ltac run_step :=
  first [ rewrite bind_emit | rewrite bind_modify_self | rewrite bind_log
        | rewrite bind_get_self ];
  cbn [self now effects logged].

Section Further.

Context `{E : H2Engine}.

Implicit Types (w : world) (c : connection) (r : reason).

(** *** Construction and [connect] *)

(** A connection built for port 443 connects with the TLS options of
    [parse_ssl_opts] (no TLSv1, no TLSv1.1, no compression, the ECDHE+AESGCM
    ciphers, ALPN [h2] only); built for any other port it connects with no
    TLS options.  Either way the timer is armed first, for [now + timeout]. *)
Theorem connect_tls_only_on_port_443 (name : string) (number : Z)
  (ready closed : option positive) (d t : Z) :
  effects
    (connect {| self := __init__ name number ready closed (Some d); now := t;
                effects := []; logged := [] |}).2
  = [AddTimeout (t + d);
     TcpConnect name number
       (if number =? 443 then
          Some {| no_tlsv1 := true; no_tlsv1_1 := true;
                  no_compression := true; ciphers := "ECDHE+AESGCM";
                  alpn_protocols := ["h2"%string] |}
        else None)].
Proof.
  unfold connect. rewrite bind_get_self. cbn [self __init__ _connect_timeout_t
    timeout_truthy connect_timeout host port ssl_context].
  rewrite bind_modify_self. unfold mbind, M_bind, ioloop_time.
  cbn [self now effects logged connect_timeout set_timed_out].
  unfold emit, modify_self. cbn [self now effects logged snd app].
  unfold parse_ssl_opts. reflexivity.
Qed.

(** With no connect timeout configured (the constructor's default),
    [connect()] fails with [TypeError] when it computes the deadline: no timer
    is added, no connect is started, and only [timed_out] has been reset. *)
Theorem connect_without_timeout_raises w :
  timeout_truthy (_connect_timeout_t (self w)) = false ->
  connect_timeout (self w) = None ->
  connect w
  = (Raise TypeError,
     {| self := set_timed_out false (self w); now := now w;
        effects := effects w; logged := logged w |}).
Proof.
  intros Ht Hd. unfold connect. rewrite bind_get_self, Ht, bind_modify_self.
  unfold mbind, M_bind, ioloop_time.
  cbn [self now effects logged connect_timeout set_timed_out]. now rewrite Hd.
Qed.

(** *** The closure routine, edge cases *)

Lemma on_close_no_callback_run w r :
  on_connection_closed (self w) = None ->
  on_close r w
  = (Raise TypeError,
     {| self := after_close (self w); now := now w;
        effects := effects w ++ close_calls (stream (self w));
        logged :=
          logged w ++ [(INFO, "IOStream closed with reason"%string)]
          ++ close_logs (stream (self w)) |}).
Proof.
  intros Hcb. destruct w as [c t es ls]. cbn [self] in Hcb.
  unfold on_close, iostream_close. monad_simpl.
  destruct c as [? ? ? ? ? ? [io|] ? ? ? ? ? ?]; cbn in *; subst.
  - destruct (close_raises io); cbn;
      rewrite <- ?app_assoc; cbn; rewrite ?app_nil_r; reflexivity.
  - rewrite <- ?app_assoc; cbn; rewrite ?app_nil_r; reflexivity.
Qed.

(** With no [on_connection_closed] callback (the constructor's default) the
    closure routine does its cleanup, closes the transport it holds, and then
    fails with [TypeError] on the call of the callback. *)
Theorem on_close_without_callback_raises w r :
  on_connection_closed (self w) = None ->
  on_close r w
  = (Raise TypeError,
     {| self := after_close (self w); now := now w;
        effects := effects w ++ close_calls (stream (self w));
        logged :=
          logged w ++ [(INFO, "IOStream closed with reason"%string)]
          ++ close_logs (stream (self w)) |}).
Proof. exact (on_close_no_callback_run w r). Qed.

(** An error raised by the [close()] of the transport during the closure
    routine is logged and swallowed: the routine returns normally, the
    transport handle is dropped all the same, and [on_connection_closed] is
    called with the reason the routine was given, not with the close error. *)
Theorem on_close_swallows_close_error w r (io : iostream) (cb : positive)
  (e : exn) :
  stream (self w) = Some io ->
  close_raises io = Some e ->
  on_connection_closed (self w) = Some cb ->
  on_close r w
  = (Ok tt,
     {| self := after_close (self w); now := now w;
        effects := effects w ++ [StreamClose (fd io); ConnectionClosed cb r];
        logged :=
          logged w
          ++ [(INFO, "IOStream closed with reason"%string);
              (ERROR, "Error trying to close stream"%string)] |}).
Proof.
  intros Hs He Hcb. rewrite (on_close_run _ _ cb Hcb), Hs.
  cbn [close_calls close_logs]. rewrite He. reflexivity.
Qed.

(** *** [flush] and the handshake of [on_connect] *)

(** [flush] hands the transport exactly the bytes the engine has pending, in
    one write, and writes nothing when there are none. *)
Lemma flush_pending_run w h (io : iostream) :
  h2conn (self w) = Some h ->
  stream (self w) = Some io ->
  exists logs,
    flush w
    = (Ok tt,
       {| self := set_h2conn (Some (data_to_send h).2) (self w);
          now := now w;
          effects :=
            effects w ++ DataToSend :: pending_writes io (data_to_send h).1;
          logged := logged w ++ logs |}).
Proof.
  intros Hh Hio. unfold flush. rewrite bind_get_self, Hh.
  destruct (data_to_send h) as [[|b data] h'].
  - do 2 run_step. unfold mret, M_ret. exists [].
    cbn [fst snd pending_writes]. rewrite <- ?app_assoc, ?app_nil_r.
    reflexivity.
  - do 3 run_step. rewrite Hio. unfold emit. cbn [self now effects logged].
    eexists. cbn [fst snd pending_writes]. rewrite <- ?app_assoc.
    reflexivity.
Qed.

(** [flush] without an engine (before the transport opened, or after the
    closure routine ran) fails with [AttributeError] and does nothing. *)
Lemma flush_without_engine_run w :
  h2conn (self w) = None -> flush w = (Raise AttributeError, w).
Proof.
  intros Hh. unfold flush. rewrite bind_get_self, Hh. reflexivity.
Qed.

Lemma connect_run w (d : Z) :
  timeout_truthy (_connect_timeout_t (self w)) = false ->
  connect_timeout (self w) = Some d ->
  connect w
  = (Ok tt,
     {| self :=
          set__connect_timeout_t (THandle (now w + d))
            (set_timed_out false (self w));
        now := now w;
        effects :=
          effects w ++ [AddTimeout (now w + d);
                        TcpConnect (host (self w)) (port (self w))
                          (ssl_context (self w))];
        logged := logged w |}).
Proof.
  intros Ht Hd. unfold connect. rewrite bind_get_self, Ht, bind_modify_self.
  unfold mbind at 1. unfold M_bind at 1. unfold ioloop_time.
  cbn [self now effects logged]. rewrite Hd. do 2 run_step.
  unfold emit. cbn [self now effects logged]. now rewrite <- app_assoc.
Qed.

Lemma on_connect_handshake_run w (io : iostream) :
  timed_out (self w) = false ->
  let h0 :=
    update_settings {[ENABLE_PUSH := 0]} (initiate_connection H2Connection) in
  exists logs,
    on_connect io w
    = (Ok tt,
       {| self :=
            set_h2conn (Some (data_to_send h0).2)
              (set_stream (Some (set_close_callback (error io) io))
                 (set__connect_timeout_t TNone
                    (set__is_connected true (self w))));
          now := now w;
          effects :=
            effects w
            ++ [RemoveTimeout (_connect_timeout_t (self w));
                SetNoDelay (fd io); SetCloseCallback (fd io) (error io);
                NewH2Connection; InitiateConnection;
                UpdateSettings {[ENABLE_PUSH := 0]};
                ReadBytes (fd io) 65535; DataToSend]
            ++ pending_writes io (data_to_send h0).1
            ++ [AddCallbackConnectionReady (on_connection_ready (self w))];
          logged := logged w ++ logs |}).
Proof.
  intros Ht h0. unfold on_connect. do 2 run_step. rewrite Ht.
  repeat run_step. unfold mbind at 1. unfold M_bind at 1.
  match goal with |- context [flush ?w1] =>
    destruct (flush_pending_run w1 h0 (set_close_callback (error io) io)
                eq_refl eq_refl) as (logs & ->)
  end.
  unfold emit. cbn [self now effects logged].
  exists ((INFO, "IOStream opened"%string) :: logs).
  f_equal. f_equal.
  - rewrite <- !app_assoc. reflexivity.
  - rewrite <- !app_assoc. reflexivity.
Qed.

(** When the transport opens in time, [on_connect] marks the connection
    connected, cancels the timer and clears its handle, records the transport
    with a close callback bound to the value its [error] attribute has now,
    builds the engine, initiates it and disables server push, arms the read,
    flushes what the engine queued, and only then schedules
    [on_connection_ready]. *)
Theorem on_connect_handshake w (io : iostream) :
  timed_out (self w) = false ->
  let h0 :=
    update_settings {[ENABLE_PUSH := 0]} (initiate_connection H2Connection) in
  exists logs,
    on_connect io w
    = (Ok tt,
       {| self :=
            set_h2conn (Some (data_to_send h0).2)
              (set_stream (Some (set_close_callback (error io) io))
                 (set__connect_timeout_t TNone
                    (set__is_connected true (self w))));
          now := now w;
          effects :=
            effects w
            ++ [RemoveTimeout (_connect_timeout_t (self w));
                SetNoDelay (fd io); SetCloseCallback (fd io) (error io);
                NewH2Connection; InitiateConnection;
                UpdateSettings {[ENABLE_PUSH := 0]};
                ReadBytes (fd io) 65535; DataToSend]
            ++ pending_writes io (data_to_send h0).1
            ++ [AddCallbackConnectionReady (on_connection_ready (self w))];
          logged := logged w ++ logs |}).
Proof. exact (on_connect_handshake_run w io). Qed.

(** A connection closed by the connect timeout can be connected again:
    [on_timeout] leaves [False] in the timer handle, so a later [connect()]
    is accepted, resets [timed_out], and the transport that opens next is
    adopted. *)
Theorem reconnect_after_timeout w (io : iostream) (d : Z) (cb : positive) :
  stream (self w) = None ->
  on_connection_closed (self w) = Some cb ->
  connect_timeout (self w) = Some d ->
  exists w',
    (on_timeout;; connect;; on_connect io) w = (Ok tt, w')
    /\ _is_connected (self w') = true
    /\ timed_out (self w') = false
    /\ _connect_timeout_t (self w') = TNone
    /\ stream (self w') = Some (set_close_callback (error io) io)
    /\ closed_reasons (effects w')
       = closed_reasons (effects w) ++ [Some (HTTPError 599)].
Proof.
  intros Hs Hcb Hd. unfold mbind at 1. unfold M_bind at 1.
  rewrite (on_timeout_run _ cb Hs Hcb).
  unfold mbind at 1. unfold M_bind at 1.
  rewrite (connect_run _ d) by (cbn; auto).
  cbn [self now effects logged].
  match goal with |- context [on_connect io ?w1] =>
    destruct (on_connect_handshake_run w1 io eq_refl) as (logs & ->)
  end.
  eexists. split; [reflexivity|]. cbn [self now effects logged].
  repeat (split; [reflexivity|]).
  rewrite !closed_reasons_app.
  destruct (data_to_send _).1; cbn; now rewrite ?app_nil_r.
Qed.

(** An error of the connect attempt runs the closure routine but leaves the
    connect timer armed: no timer is removed, the handle stays set, so a
    further [connect()] is still refused, and when the timer fires the
    closure routine runs again and calls [on_connection_closed] a second
    time, with [HTTPError(599)]. *)
Theorem connect_error_keeps_timer w (d : Z) (cb : positive) (e : exn) :
  timeout_truthy (_connect_timeout_t (self w)) = false ->
  connect_timeout (self w) = Some d ->
  stream (self w) = None ->
  on_connection_closed (self w) = Some cb ->
  exists w',
    (connect;; on_error "during connection" e) w = (Ok tt, w')
    /\ _connect_timeout_t (self w') = THandle (now w + d)
    /\ effects w'
       = effects w ++ [AddTimeout (now w + d);
                       TcpConnect (host (self w)) (port (self w))
                         (ssl_context (self w));
                       ConnectionClosed cb (Some e)]
    /\ self (connect w').2 = self w'
    /\ effects (connect w').2 = effects w'
    /\ closed_reasons (effects (on_timeout w').2)
       = closed_reasons (effects w) ++ [Some e; Some (HTTPError 599)].
Proof.
  intros Ht Hd Hs Hcb. unfold mbind at 1. unfold M_bind at 1.
  rewrite (connect_run _ d Ht Hd). unfold on_error. rewrite bind_log.
  erewrite on_close_run by exact Hcb.
  cbn [self now effects logged stream set__connect_timeout_t set_timed_out].
  rewrite Hs. cbn [close_calls close_logs].
  eexists. split; [reflexivity|]. cbn [self now effects logged].
  split; [reflexivity|]. split; [now rewrite <- !app_assoc|].
  split; [|split].
  - unfold connect. rewrite bind_get_self. reflexivity.
  - unfold connect. rewrite bind_get_self. reflexivity.
  - erewrite on_timeout_run by (cbn; eauto).
    cbn [self now effects logged snd].
    rewrite !closed_reasons_app. cbn. now rewrite <- !app_assoc.
Qed.

(** *** Frames *)

Lemma set_h2conn_self c : set_h2conn (h2conn c) c = c.
Proof. now destruct c. Qed.

Lemma engine_only_refl (P : effect -> Prop) w : engine_only P w w.
Proof.
  repeat split; auto using set_h2conn_self.
  exists []. now rewrite app_nil_r.
Qed.

Lemma engine_only_trans (P : effect -> Prop) w1 w2 w3 :
  engine_only P w1 w2 -> engine_only P w2 w3 -> engine_only P w1 w3.
Proof.
  intros (Hs1 & Hi1 & Hn1 & es1 & He1 & HP1) (Hs2 & Hi2 & Hn2 & es2 & He2 & HP2).
  repeat split.
  - rewrite Hs2, Hs1. reflexivity.
  - intros H. now apply Hi1, Hi2.
  - intros H. now apply Hi2, Hi1.
  - congruence.
  - exists (es1 ++ es2). rewrite He2, He1, app_assoc. split; [reflexivity|].
    now apply Forall_app.
Qed.

Lemma engine_only_mono (P Q : effect -> Prop) w w' :
  (forall e, P e -> Q e) -> engine_only P w w' -> engine_only Q w w'.
Proof.
  intros HPQ (Hs & Hi & Hn & es & He & HP). split_and!; auto.
  exists es. split; [exact He|]. eapply Forall_impl; eauto.
Qed.

Lemma engine_only_log (P : effect -> Prop) w (entries : list (level * string)) :
  engine_only P w
    {| self := self w; now := now w; effects := effects w;
       logged := logged w ++ entries |}.
Proof.
  unfold engine_only. cbn [self now effects].
  split_and!; auto using set_h2conn_self.
  exists []. now rewrite app_nil_r.
Qed.

Lemma engine_only_step (P : effect -> Prop) w h h' (es : list effect)
  (entries : list (level * string)) :
  h2conn (self w) = Some h ->
  Forall P es ->
  engine_only P w
    {| self := set_h2conn (Some h') (self w); now := now w;
       effects := effects w ++ es; logged := logged w ++ entries |}.
Proof.
  intros Hh HP. unfold engine_only. cbn [self now effects].
  split_and!; auto.
  - rewrite Hh. split; eauto.
  - exists es. auto.
Qed.

Lemma engine_only_calls (P : effect -> Prop) w (es : list effect)
  (entries : list (level * string)) :
  Forall P es ->
  engine_only P w
    {| self := self w; now := now w; effects := effects w ++ es;
       logged := logged w ++ entries |}.
Proof.
  intros HP. unfold engine_only. cbn [self now effects].
  split_and!; auto using set_h2conn_self.
  exists es. auto.
Qed.

Lemma frames_ret {A} (P : effect -> Prop) (a : A) : frames P (mret a).
Proof. intros w. apply engine_only_refl. Qed.

Lemma frames_raise {A} (P : effect -> Prop) (e : exn) :
  frames P (raise e : M A).
Proof. intros w. apply engine_only_refl. Qed.

Lemma frames_log (P : effect -> Prop) (l : level) (msg : string) :
  frames P (log l msg).
Proof. intros w. apply (engine_only_log P w [(l, msg)]). Qed.

Lemma frames_emit (P : effect -> Prop) (e : effect) :
  P e -> frames P (emit e).
Proof.
  intros HP w. unfold emit. cbn [snd].
  replace (logged w) with (logged w ++ []) by apply app_nil_r.
  apply engine_only_calls. auto.
Qed.

Lemma frames_bind {A B} (P : effect -> Prop) (m : M A) (k : A -> M B) :
  frames P m -> (forall a, frames P (k a)) -> frames P (m ≫= k).
Proof.
  intros Hm Hk w. unfold mbind, M_bind. specialize (Hm w).
  destruct (m w) as [[a|e] w1]; cbn [snd] in *; [|exact Hm].
  eapply engine_only_trans; [exact Hm|apply Hk].
Qed.

Lemma frames_try_except {A} (P : effect -> Prop) (m : M A)
  (handler : exn -> M A) :
  frames P m -> (forall e, frames P (handler e)) ->
  frames P (try_except m handler).
Proof.
  intros Hm Hh w. unfold try_except. specialize (Hm w).
  destruct (m w) as [[a|e] w1]; cbn [snd] in *; [exact Hm|].
  eapply engine_only_trans; [exact Hm|apply Hh].
Qed.

Lemma frames_mono {A} (P Q : effect -> Prop) (m : M A) :
  (forall e, P e -> Q e) -> frames P m -> frames Q m.
Proof. intros HPQ Hm w. eapply engine_only_mono; eauto. Qed.

Lemma frames_increment (n : Z) (sid : option Z) :
  frames engine_io (h2conn_increment_flow_control_window n sid).
Proof.
  intros w. unfold h2conn_increment_flow_control_window.
  rewrite bind_get_self. destruct (h2conn (self w)) as [h|] eqn:Hh;
    [|apply engine_only_refl].
  destruct (increment_flow_control_window n sid h) as [res h'].
  do 2 run_step.
  replace (logged w) with (logged w ++ []) by apply app_nil_r.
  destruct res; cbn [snd];
    apply (engine_only_step _ _ h); auto; repeat constructor.
Qed.

Lemma frames_flush : frames engine_io flush.
Proof.
  intros w. unfold flush. rewrite bind_get_self.
  destruct (h2conn (self w)) as [h|] eqn:Hh; [|apply engine_only_refl].
  destruct (data_to_send h) as [[|b data] h'].
  - do 2 run_step. cbn [snd].
    replace (logged w) with (logged w ++ []) by apply app_nil_r.
    apply (engine_only_step _ _ h); auto. repeat constructor.
  - do 3 run_step. destruct (stream (self w)) as [io|]; cbn [snd].
    + unfold emit. cbn [self now effects logged snd]. rewrite <- app_assoc.
      apply (engine_only_step _ _ h); auto. repeat constructor.
    + unfold raise. cbn [snd].
      apply (engine_only_step _ _ h); auto. repeat constructor.
Qed.

Lemma frames_route (ev : event) : frames delivery (route ev).
Proof.
  unfold route. intros w. rewrite bind_get_self.
  destruct (ongoing_stream (self w) (ev_stream_id ev)) as [s|].
  - apply frames_bind; [apply frames_emit; exact I|]. intros _.
    destruct (handle_event s ev).
    + apply frames_ret.
    + apply frames_emit. exact I.
    + apply frames_bind; [apply frames_emit; exact I|].
      intros _. apply frames_raise.
  - destruct (stream_id_truthy (ev_stream_id ev)); apply frames_log.
Qed.

Lemma Forall_delivery_fan_out c (ev : event) :
  Forall delivery (fan_out_calls c ev).
Proof.
  unfold fan_out_calls.
  destruct (event_handlers c !! ev_oid ev) as [hs|]; [|constructor].
  induction (elements hs); constructor; auto. exact I.
Qed.

Lemma frames_fan_out (ev : event) : frames delivery (fan_out ev).
Proof.
  intros w. rewrite fan_out_run. cbn [snd].
  replace (logged w) with (logged w ++ []) by apply app_nil_r.
  apply engine_only_calls, Forall_delivery_fan_out.
Qed.

Lemma frames_dispatch (events : list event) (l : locals) :
  frames delivery (dispatch events l).
Proof.
  revert l. induction events as [|ev rest IH]; intros l.
  - apply frames_ret.
  - intros w. rewrite dispatch_cons. revert w.
    apply frames_bind; [apply frames_log|]. intros _.
    apply frames_bind; [apply frames_route|]. intros _.
    apply frames_bind; [apply frames_fan_out|]. intros _. apply IH.
Qed.

Lemma frames_credit_streams (items : list (option Z * Z)) (acc : Z) :
  frames engine_io (credit_streams items acc).
Proof.
  revert acc. induction items as [|[sid n] items IH]; intros acc.
  - apply frames_ret.
  - intros w. rewrite credit_streams_cons. revert w.
    destruct (n =? 0); [apply IH|].
    apply frames_bind; [|intros _; apply IH].
    apply frames_try_except.
    + apply frames_bind; [apply frames_log|]. intros _.
      apply frames_increment.
    + intros e. destruct e; try apply frames_raise. apply frames_log.
Qed.

Lemma frames_return_credit (l : locals) : frames engine_io (return_credit l).
Proof.
  unfold return_credit.
  apply frames_bind; [apply frames_credit_streams|]. intros total_bytes.
  apply frames_bind.
  - destruct (total_bytes =? 0); [apply frames_ret|].
    apply frames_bind; [apply frames_log|]. intros _. apply frames_increment.
  - intros _. destruct (_ || _); [apply frames_flush|apply frames_ret].
Qed.

Lemma delivery_not_closing (e : effect) : delivery e -> not_closing e.
Proof. now destruct e. Qed.

Lemma engine_io_not_closing (e : effect) : engine_io e -> not_closing e.
Proof. now destruct e. Qed.

Lemma frames_process_events (events : list event) :
  frames not_closing (process_events events).
Proof.
  unfold process_events. apply frames_bind.
  - eapply frames_mono; [apply delivery_not_closing|apply frames_dispatch].
  - intros l. eapply frames_mono;
      [apply engine_io_not_closing|apply frames_return_credit].
Qed.

Lemma frames_data_received (data : list Byte.byte) :
  frames not_closing (data_received data).
Proof.
  unfold data_received. apply frames_bind; [apply frames_log|]. intros _.
  apply frames_try_except; [|intros e; apply frames_log].
  intros w. rewrite bind_get_self.
  destruct (h2conn (self w)) as [h|] eqn:Hh; [|apply engine_only_refl].
  destruct (receive_data data h) as [res h']. do 2 run_step.
  match goal with |- engine_only _ _ (_ ?w1).2 =>
    assert (Hstep : engine_only not_closing w w1)
  end.
  { replace (logged w) with (logged w ++ []) by apply app_nil_r.
    apply (engine_only_step not_closing _ h h' [ReceiveData data]); auto.
    repeat constructor. }
  destruct res as [events|e];
    (eapply engine_only_trans; [exact Hstep|]).
  - assert (Hrest : frames not_closing
                      (log INFO "Events to process";;
                       match events with
                       | [] => mret tt
                       | _ :: _ => process_events events
                       end)).
    { apply frames_bind; [apply frames_log|]. intros _.
      destruct events; [apply frames_ret|apply frames_process_events]. }
    apply Hrest.
  - apply (frames_raise (A := unit) not_closing e).
Qed.

(** *** The read path never closes and never raises *)

Lemma closed_reasons_not_closing (es : list effect) :
  Forall not_closing es ->
  closed_reasons es = [] /\ closed_transports es = [].
Proof.
  induction 1 as [|e es He _ [IH1 IH2]]; [split; reflexivity|].
  destruct e; try contradiction; cbn; auto.
Qed.

Lemma engine_only_keeps w w' :
  engine_only not_closing w w' ->
  _is_connected (self w') = _is_connected (self w)
  /\ stream (self w') = stream (self w)
  /\ (is_Some (h2conn (self w')) <-> is_Some (h2conn (self w)))
  /\ timed_out (self w') = timed_out (self w)
  /\ _connect_timeout_t (self w') = _connect_timeout_t (self w)
  /\ _ongoing_streams (self w') = _ongoing_streams (self w)
  /\ event_handlers (self w') = event_handlers (self w)
  /\ closed_reasons (effects w') = closed_reasons (effects w)
  /\ closed_transports (effects w') = closed_transports (effects w).
Proof.
  intros (Hs & Hi & _ & es & He & HP).
  destruct (closed_reasons_not_closing es HP) as [Hr Ht].
  rewrite He, closed_reasons_app, closed_transports_app, Hr, Ht, !app_nil_r.
  split_and!; try reflexivity; try exact Hi; now rewrite Hs.
Qed.

(** Whatever the bytes, the engine and the stream handlers do,
    [data_received] returns normally and performs no closure: the connected
    flag, the transport handle, the timer, both registries and the presence
    of the engine are as before, no transport is closed and
    [on_connection_closed] is not called. *)
Theorem data_received_never_closes w (data : list Byte.byte) :
  let w' := (data_received data w).2 in
  (data_received data w).1 = Ok tt
  /\ _is_connected (self w') = _is_connected (self w)
  /\ stream (self w') = stream (self w)
  /\ (is_Some (h2conn (self w')) <-> is_Some (h2conn (self w)))
  /\ timed_out (self w') = timed_out (self w)
  /\ _connect_timeout_t (self w') = _connect_timeout_t (self w)
  /\ _ongoing_streams (self w') = _ongoing_streams (self w)
  /\ event_handlers (self w') = event_handlers (self w)
  /\ closed_reasons (effects w') = closed_reasons (effects w)
  /\ closed_transports (effects w') = closed_transports (effects w).
Proof.
  split; [|apply engine_only_keeps, frames_data_received].
  unfold data_received. rewrite bind_log. unfold try_except.
  match goal with |- context [match ?m ?w1 with _ => _ end] =>
    destruct (m w1) as [[[]|e] w2]
  end; reflexivity.
Qed.

Lemma on_close_self w r : self (on_close r w).2 = after_close (self w).
Proof.
  destruct (on_connection_closed (self w)) as [cb|] eqn:Hcb.
  - now rewrite (on_close_run _ _ cb Hcb).
  - now rewrite (on_close_no_callback_run _ _ Hcb).
Qed.

(** Once the closure routine has run, bytes that still arrive are dropped:
    [data_received] makes no call at all (no decoding, no dispatch, no
    write), changes nothing in the connection, and only logs. *)
Theorem data_after_close_is_dropped w r (data : list Byte.byte) :
  let w1 := (on_close r w).2 in
  data_received data w1
  = (Ok tt,
     {| self := self w1; now := now w1; effects := effects w1;
        logged :=
          logged w1
          ++ [(INFO, "Received data on IOStream"%string);
              (INFO,
               "Could not process events received on the HTTP/2 connection"%string)]
     |}).
Proof.
  intros w1. assert (Hh : h2conn (self w1) = None).
  { unfold w1. now rewrite on_close_self. }
  unfold data_received. rewrite bind_log. unfold try_except.
  rewrite bind_get_self. cbn [self]. rewrite Hh.
  unfold raise, log. cbn [self now effects logged].
  now rewrite <- app_assoc.
Qed.

(** Once the closure routine has run there is no engine, so the connection
    refuses to write and to open streams: [flush] and [begin_stream] fail
    with [AttributeError], and neither changes anything. *)
Theorem closed_connection_refuses_flush_and_streams w r (s : http_stream) :
  let w1 := (on_close r w).2 in
  flush w1 = (Raise AttributeError, w1)
  /\ begin_stream s w1 = (Raise AttributeError, w1).
Proof.
  intros w1. assert (Hh : h2conn (self w1) = None).
  { unfold w1. now rewrite on_close_self. }
  split.
  - exact (flush_without_engine_run w1 Hh).
  - unfold begin_stream. rewrite bind_get_self, Hh. reflexivity.
Qed.

(** *** Delivery *)

Lemma deliveries_app (es es' : list effect) :
  deliveries (es ++ es') = deliveries es ++ deliveries es'.
Proof. apply omap_app. Qed.

Lemma deliveries_engine_io (es : list effect) :
  Forall engine_io es -> deliveries es = [].
Proof.
  induction 1 as [|e es He _ IH]; [reflexivity|].
  destruct e; try contradiction; exact IH.
Qed.

Lemma deliveries_dispatch_calls c (events : list event) :
  deliveries (dispatch_calls c events) = omap (delivered_to c) events.
Proof.
  unfold dispatch_calls. induction events as [|ev rest IH]; [reflexivity|].
  cbn [flat_map]. rewrite !deliveries_app, IH.
  assert (Hfan : deliveries (fan_out_calls c ev) = []).
  { unfold fan_out_calls.
    destruct (event_handlers c !! ev_oid ev) as [hs|]; [|reflexivity].
    induction (elements hs); auto. }
  rewrite Hfan, app_nil_r.
  change (omap (delivered_to c) (ev :: rest))
    with (match delivered_to c ev with
          | Some d => d :: omap (delivered_to c) rest
          | None => omap (delivered_to c) rest
          end).
  unfold route_calls, delivered_to.
  destruct (ongoing_stream c (ev_stream_id ev)) as [s|]; [|reflexivity].
  destruct (handle_event s ev); reflexivity.
Qed.

Lemma deliveries_process_events w (events : list event) :
  Forall (well_handled (self w)) events ->
  deliveries (effects (process_events events w).2)
  = deliveries (effects w) ++ omap (delivered_to (self w)) events.
Proof.
  intros Hall. rewrite process_events_unfold.
  destruct (dispatch_run events locals0 w Hall) as (logs & ->).
  match goal with |- context [return_credit ?l ?w1] =>
    destruct (frames_return_credit l w1) as (_ & _ & _ & es & -> & Hes)
  end.
  cbn [effects]. rewrite !deliveries_app, deliveries_dispatch_calls.
  rewrite (deliveries_engine_io es Hes). now rewrite app_nil_r.
Qed.


(** A handler that lets its exception through ends the batch: the events
    before it were dispatched, the failing event was handed to its handler,
    and then [process_events] raises: no later event is delivered, no credit
    is returned for any of the batch, and nothing is flushed. *)
Theorem propagated_handler_error_aborts_batch w (pre post : list event)
  (ev : event) (s : http_stream) (e : exn) :
  Forall (well_handled (self w)) pre ->
  ongoing_stream (self w) (ev_stream_id ev) = Some s ->
  handle_event s ev = RaisedPropagated e ->
  exists logs,
    process_events (pre ++ ev :: post) w
    = (Raise e,
       {| self := self w; now := now w;
          effects :=
            effects w ++ dispatch_calls (self w) pre
            ++ [HandleEvent (hs_oid s) ev; HandleException (hs_oid s) e];
          logged := logged w ++ logs |}).
Proof.
  intros Hpre Hs He. rewrite process_events_unfold.
  assert (Hd : forall l w0,
             self w0 = self w ->
             exists logs,
               dispatch (pre ++ ev :: post) l w0
               = (Raise e,
                  {| self := self w0; now := now w0;
                     effects :=
                       effects w0 ++ dispatch_calls (self w) pre
                       ++ [HandleEvent (hs_oid s) ev;
                           HandleException (hs_oid s) e];
                     logged := logged w0 ++ logs |})).
  { clear -Hpre Hs He. induction pre as [|p pre IH]; intros l w0 Hw0.
    - cbn [app]. rewrite dispatch_cons. run_step.
      unfold mbind at 1. unfold M_bind at 1. unfold route.
      rewrite bind_get_self. cbn [self now effects logged].
      rewrite Hw0, Hs, He. do 2 run_step. unfold raise.
      eexists. rewrite <- app_assoc. reflexivity.
    - apply Forall_cons in Hpre as [Hp Hpre].
      cbn [app]. rewrite dispatch_cons. run_step.
      unfold mbind at 1. unfold M_bind at 1.
      match goal with |- context [route p ?w1] =>
        destruct (route_run w1 p) as (logs1 & ->);
          [cbn [self]; now rewrite Hw0|]
      end.
      unfold mbind at 1. unfold M_bind at 1. rewrite fan_out_run.
      cbn [self now effects logged].
      match goal with |- context [dispatch _ ?l1 ?w2] =>
        destruct (IH Hpre l1 w2 Hw0) as (logs2 & ->)
      end.
      cbn [self now effects logged]. eexists. f_equal. f_equal.
      + rewrite Hw0. unfold dispatch_calls. cbn [flat_map].
        rewrite <- !app_assoc. reflexivity.
      + rewrite <- !app_assoc. reflexivity. }
  destruct (Hd locals0 w eq_refl) as (logs & ->). eauto.
Qed.

(** An event whose stream id is absent or zero is connection-scoped: it is
    delivered to no stream handler, even when a handler is registered under
    the id 0, and a note is logged. *)
Theorem connection_scoped_event_not_delivered w (ev : event) (l : locals) :
  stream_id_truthy (ev_stream_id ev) = false ->
  exists w',
    dispatch [ev] l w = (Ok (classify ev l), w')
    /\ deliveries (effects w') = deliveries (effects w)
    /\ self w' = self w
    /\ (WARNING, "Received event for connection!"%string) ∈ logged w'.
Proof.
  intros Hfalsy.
  assert (Hnone : ongoing_stream (self w) (ev_stream_id ev) = None).
  { unfold ongoing_stream. destruct (ev_stream_id ev); [|reflexivity].
    now rewrite Hfalsy. }
  rewrite dispatch_cons. run_step.
  unfold mbind at 1. unfold M_bind at 1. unfold route.
  rewrite bind_get_self. cbn [self now effects logged].
  rewrite Hnone, Hfalsy. unfold log. cbn [self now effects logged].
  unfold mbind at 1. unfold M_bind at 1. rewrite fan_out_run.
  unfold mret, M_ret.
  eexists. split; [reflexivity|]. cbn [self now effects logged].
  split; [|split; [reflexivity|set_solver]].
  rewrite deliveries_app. unfold fan_out_calls.
  destruct (event_handlers (self w) !! ev_oid ev) as [hs|];
    [|now rewrite app_nil_r].
  assert (Hnil : deliveries ((fun h => EventHandlerCall h ev) <$> elements hs)
                 = []) by (induction (elements hs); auto).
  now rewrite Hnil, app_nil_r.
Qed.

(** *** The stream registry *)

(** [begin_stream] without an engine fails with [AttributeError] and
    registers nothing. *)
Lemma begin_stream_without_engine_run w (s : http_stream) :
  h2conn (self w) = None -> begin_stream s w = (Raise AttributeError, w).
Proof.
  intros Hh. unfold begin_stream. rewrite bind_get_self, Hh. reflexivity.
Qed.

Lemma begin_stream_run w h (s : http_stream) :
  h2conn (self w) = Some h ->
  begin_stream s w
  = (Ok (get_next_available_stream_id h),
     {| self :=
          set__ongoing_streams
            (<[get_next_available_stream_id h := s]>
               (_ongoing_streams (self w))) (self w);
        now := now w;
        effects := effects w ++ [GetNextAvailableStreamId];
        logged := logged w |}).
Proof.
  intros Hh. unfold begin_stream. rewrite bind_get_self, Hh.
  do 2 run_step. reflexivity.
Qed.

(** [begin_stream] does no collision detection: the handler is stored under
    the id the engine reports, replacing whatever handler was there; the
    entries of the other ids, and the engine, are untouched. *)
Theorem begin_stream_replaces_entry w h (s : http_stream) :
  h2conn (self w) = Some h ->
  let id := get_next_available_stream_id h in
  exists w',
    begin_stream s w = (Ok id, w')
    /\ _ongoing_streams (self w') !! id = Some s
    /\ (forall j, j <> id ->
          _ongoing_streams (self w') !! j = _ongoing_streams (self w) !! j)
    /\ h2conn (self w') = Some h.
Proof.
  intros Hh id. rewrite (begin_stream_run _ h s Hh).
  eexists. split; [reflexivity|]. cbn [self _ongoing_streams
    set__ongoing_streams h2conn].
  split; [apply lookup_insert_eq|]. split; [|exact Hh].
  intros j Hj. now apply lookup_insert_ne.
Qed.

(** Registering a handler under a free id and then ending that stream leaves
    the registry as it was; ending it a second time fails with [KeyError]. *)
Theorem begin_end_round_trip w h (s : http_stream) :
  h2conn (self w) = Some h ->
  hs_stream_id s = get_next_available_stream_id h ->
  _ongoing_streams (self w) !! hs_stream_id s = None ->
  exists w',
    (begin_stream s ≫= fun _ => end_stream s) w = (Ok tt, w')
    /\ _ongoing_streams (self w') = _ongoing_streams (self w)
    /\ (end_stream s w').1 = Raise KeyError.
Proof.
  intros Hh Hid Hfree. unfold mbind at 1. unfold M_bind at 1.
  rewrite (begin_stream_run _ h s Hh). unfold end_stream.
  rewrite bind_get_self. cbn [self _ongoing_streams set__ongoing_streams].
  rewrite Hid, lookup_insert_eq. unfold modify_self.
  cbn [self _ongoing_streams set__ongoing_streams].
  eexists. split; [reflexivity|].
  cbn [self _ongoing_streams set__ongoing_streams].
  rewrite delete_insert_id by (now rewrite <- Hid).
  split; [reflexivity|].
  rewrite bind_get_self. cbn [self _ongoing_streams set__ongoing_streams].
  rewrite <- Hid, Hfree. reflexivity.
Qed.

(** *** Observers, when the event already is a key *)

Lemma union_difference_singleton (x : positive) (X : gset positive) :
  x ∉ X -> ({[x]} ∪ X) ∖ {[x]} = X.
Proof.
  intros Hx. apply set_eq. intros y.
  rewrite elem_of_difference, elem_of_union, elem_of_singleton.
  split.
  - intros [[->|Hy] Hne]; [done|exact Hy].
  - intros Hy. split; [now right|]. intros ->. contradiction.
Qed.

Lemma set_event_handlers_twice (a b : gmap positive (gset positive)) c :
  set_event_handlers a (set_event_handlers b c) = set_event_handlers a c.
Proof. reflexivity. Qed.

(** [add_event_handler] and [remove_event_handler] work on the set stored
    under an event that already is a key of [event_handlers]: adding puts the
    handler into that set, adding it again changes nothing, removing it gives
    the set back as it was, and removing it once more fails with
    [KeyError]. *)
Theorem observers_of_existing_key w (event handler : positive)
  (handlers : gset positive) :
  event_handlers (self w) !! event = Some handlers ->
  handler ∉ handlers ->
  let w1 := (add_event_handler event handler w).2 in
  let w2 := (remove_event_handler event handler w1).2 in
  event_handlers (self w1) !! event = Some ({[handler]} ∪ handlers)
  /\ add_event_handler event handler w1 = (Ok tt, w1)
  /\ (remove_event_handler event handler w1).1 = Ok tt
  /\ event_handlers (self w2) = event_handlers (self w)
  /\ (remove_event_handler event handler w2).1 = Raise KeyError.
Proof.
  intros Hkey Hnew w1 w2.
  assert (Hw1 : w1
                = {| self :=
                       set_event_handlers
                         (<[event := {[handler]} ∪ handlers]>
                            (event_handlers (self w))) (self w);
                     now := now w; effects := effects w;
                     logged := logged w |}).
  { unfold w1, add_event_handler. rewrite bind_get_self, Hkey. reflexivity. }
  assert (Hw2 : w2
                = {| self :=
                       set_event_handlers (event_handlers (self w)) (self w);
                     now := now w; effects := effects w;
                     logged := logged w |}
                /\ (remove_event_handler event handler w1).1 = Ok tt).
  { unfold w2. rewrite Hw1. unfold remove_event_handler.
    rewrite bind_get_self. cbn [self event_handlers set_event_handlers].
    rewrite lookup_insert_eq.
    rewrite bool_decide_eq_true_2 by set_solver.
    unfold modify_self. cbn [self now effects logged event_handlers
      set_event_handlers fst snd].
    split; [|reflexivity]. rewrite set_event_handlers_twice.
    rewrite insert_insert_eq.
    rewrite (union_difference_singleton handler handlers Hnew).
    now rewrite (insert_id _ _ _ Hkey). }
  destruct Hw2 as [Hw2 Hok]. split_and!.
  - rewrite Hw1. cbn [self event_handlers set_event_handlers].
    apply lookup_insert_eq.
  - rewrite Hw1. unfold add_event_handler. rewrite bind_get_self.
    cbn [self event_handlers set_event_handlers].
    rewrite lookup_insert_eq. unfold modify_self.
    cbn [self now effects logged event_handlers set_event_handlers].
    rewrite set_event_handlers_twice, insert_insert_eq.
    now rewrite (assoc_L (∪)), union_idemp_L.
  - exact Hok.
  - rewrite Hw2. reflexivity.
  - rewrite Hw2. unfold remove_event_handler. rewrite bind_get_self.
    cbn [self event_handlers set_event_handlers]. rewrite Hkey.
    now rewrite bool_decide_eq_false_2.
Qed.

(** *** The ledger *)

Lemma total_permutation (l l' : list (option Z * Z)) :
  l ≡ₚ l' -> total l = total l'.
Proof.
  induction 1 as [|p l l' _ IH|p q l|l1 l2 l3 _ IH1 _ IH2].
  - reflexivity.
  - now rewrite !total_cons, IH.
  - rewrite !total_cons. lia.
  - congruence.
Qed.

Lemma total_insert (m : gmap (option Z) Z) (k : option Z) (n : Z) :
  total (map_to_list (<[k := default 0 (m !! k) + n]> m))
  = total (map_to_list m) + n.
Proof.
  destruct (m !! k) as [v|] eqn:Hk; cbn [default].
  - rewrite <- insert_delete_eq.
    rewrite (total_permutation _ _
               (map_to_list_insert (delete k m) k (v + n)
                  (lookup_delete_eq m k))).
    rewrite <- (total_permutation _ _ (map_to_list_delete m k v Hk)).
    rewrite !total_cons. cbn [snd]. lia.
  - rewrite (total_permutation _ _ (map_to_list_insert m k (0 + n) Hk)).
    rewrite total_cons. cbn [snd]. lia.
Qed.

Lemma total_ledger_from (events : list event) (l : locals) :
  total (map_to_list (recv_streams (ledger_from l events)))
  = total (map_to_list (recv_streams l)) + data_bytes events.
Proof.
  revert l. induction events as [|ev rest IH]; intros l.
  - cbn. lia.
  - change (ledger_from l (ev :: rest))
      with (ledger_from (classify ev l) rest).
    rewrite IH. cbn [data_bytes foldr]. fold (data_bytes rest).
    unfold classify. destruct (ev_class ev); cbn [recv_streams]; try lia.
    rewrite total_insert. lia.
Qed.

(** The sum of the ledger after a batch, which is the amount of the
    connection-scope increment, is the number of flow-controlled bytes of all
    the data deliveries of the batch, registered stream or not. *)
Theorem ledger_total_is_batch_bytes (events : list event) :
  total (map_to_list (recv_streams (ledger events))) = data_bytes events.
Proof.
  unfold ledger. rewrite total_ledger_from. cbn [locals0 recv_streams].
  rewrite map_to_list_empty. reflexivity.
Qed.

(** *** Engine errors while returning credit *)

Lemma credit_streams_first_error (items rest : list (option Z * Z))
  (acc : Z) w h (sid : option Z) (n : Z) (e : exn) :
  h2conn (self w) = Some h ->
  credited items = (sid, n) :: rest ->
  (increment_flow_control_window n sid h).1 = Raise e ->
  e <> StreamClosedError ->
  exists logs,
    credit_streams items acc w
    = (Raise e,
       {| self :=
            set_h2conn (Some (increment_flow_control_window n sid h).2)
              (self w);
          now := now w;
          effects := effects w ++ [IncrementFlowControlWindow n sid];
          logged := logged w ++ logs |}).
Proof.
  intros Hh Hcred Hinc He. revert Hcred.
  induction items as [|[k v] items IH]; intros Hcred; [discriminate|].
  rewrite credit_streams_cons. unfold credited in Hcred.
  destruct (v =? 0) eqn:Hv.
  - apply Z.eqb_eq in Hv. subst v.
    rewrite filter_cons_False in Hcred by (cbn; lia). exact (IH Hcred).
  - apply Z.eqb_neq in Hv.
    rewrite filter_cons_True in Hcred by (cbn; lia).
    injection Hcred as -> -> _.
    unfold mbind at 1. unfold M_bind at 1. unfold try_except.
    rewrite bind_log, (increment_run _ h) by exact Hh.
    rewrite Hinc. cbn [self now effects logged].
    destruct e; try contradiction; unfold raise; eexists; reflexivity.
Qed.

(** When the engine answers the first per-stream increment with an error
    other than stream-closed, the error leaves [process_events]: the batch
    was dispatched and that one increment attempted, but no other increment,
    per stream or for the connection, is issued and nothing is flushed. *)
Theorem engine_error_aborts_credit w (events : list event) h
  (sid : option Z) (n : Z) (rest : list (option Z * Z)) (e : exn) :
  h2conn (self w) = Some h ->
  Forall (well_handled (self w)) events ->
  credited (map_to_list (recv_streams (ledger events))) = (sid, n) :: rest ->
  (increment_flow_control_window n sid h).1 = Raise e ->
  e <> StreamClosedError ->
  exists h' logs,
    process_events events w
    = (Raise e,
       {| self := set_h2conn (Some h') (self w); now := now w;
          effects :=
            effects w ++ dispatch_calls (self w) events
            ++ [IncrementFlowControlWindow n sid];
          logged := logged w ++ logs |}).
Proof.
  intros Hh Hall Hcred Hinc He. rewrite process_events_unfold.
  destruct (dispatch_run events locals0 w Hall) as (logs1 & ->).
  fold (ledger events). rewrite return_credit_unfold.
  match goal with |- context [credit_streams ?items 0 ?w1] =>
    destruct (credit_streams_first_error items rest 0 w1 h sid n e Hh Hcred
                Hinc He) as (logs2 & ->)
  end.
  cbn [self now effects logged]. do 2 eexists.
  rewrite <- !app_assoc. reflexivity.
Qed.

(** *** From registration to delivery *)

(** Once [begin_stream] has registered a handler under a nonzero id, an
    event carrying that id is delivered to that handler, and to no other. *)
Theorem registered_stream_gets_its_events w h (s : http_stream)
  (ev : event) :
  h2conn (self w) = Some h ->
  get_next_available_stream_id h <> 0 ->
  ev_stream_id ev = Some (get_next_available_stream_id h) ->
  (forall e, handle_event s ev <> RaisedPropagated e) ->
  deliveries (effects (process_events [ev] (begin_stream s w).2).2)
  = deliveries (effects w) ++ [(hs_oid s, ev)].
Proof.
  intros Hh Hid Hev Hok. rewrite (begin_stream_run _ h s Hh). cbn [snd].
  assert (Hreg : ongoing_stream
                   (set__ongoing_streams
                      (<[get_next_available_stream_id h := s]>
                         (_ongoing_streams (self w))) (self w))
                   (ev_stream_id ev) = Some s).
  { unfold ongoing_stream. rewrite Hev. cbn [stream_id_truthy].
    apply Z.eqb_neq in Hid. rewrite Hid.
    cbn [negb _ongoing_streams set__ongoing_streams].
    apply lookup_insert_eq. }
  rewrite deliveries_process_events.
  - cbn [self effects omap list_omap]. unfold delivered_to.
    rewrite Hreg. cbn. rewrite deliveries_app. cbn.
    now rewrite app_nil_r.
  - constructor; [|constructor]. unfold well_handled. cbn [self].
    rewrite Hreg. specialize (Hok).
    destruct (handle_event s ev) as [| |e]; auto. now apply (Hok e).
Qed.

(** *** What each method leaves of the connection object *)

Lemma connect_self w :
  exists t b,
    self (connect w).2 = set__connect_timeout_t t (set_timed_out b (self w)).
Proof.
  destruct (timeout_truthy (_connect_timeout_t (self w))) eqn:Ht.
  - exists (_connect_timeout_t (self w)), (timed_out (self w)).
    unfold connect. rewrite bind_get_self, Ht. cbn [log snd self].
    now destruct (self w).
  - destruct (connect_timeout (self w)) as [d|] eqn:Hd.
    + rewrite (connect_run _ d Ht Hd). cbn [snd self]. eauto.
    + exists (_connect_timeout_t (self w)), false.
      unfold connect. rewrite bind_get_self, Ht, bind_modify_self.
      unfold mbind, M_bind, ioloop_time.
      cbn [self now effects logged connect_timeout set_timed_out].
      rewrite Hd. cbn [raise snd self]. now destruct (self w).
Qed.

Lemma on_connect_self w (io : iostream) :
  self (on_connect io w).2 = self w
  \/ exists h,
       self (on_connect io w).2
       = set_h2conn (Some h)
           (set_stream (Some (set_close_callback (error io) io))
              (set__connect_timeout_t TNone
                 (set__is_connected true (self w)))).
Proof.
  destruct (timed_out (self w)) eqn:Ht.
  - left. now rewrite (on_connect_timed_out _ _ Ht).
  - right. destruct (on_connect_handshake_run w io Ht) as (logs & ->). eauto.
Qed.

Lemma on_timeout_self w :
  self (on_timeout w).2
  = after_close (set__connect_timeout_t TFalse (set_timed_out true (self w))).
Proof. unfold on_timeout. do 3 run_step. now rewrite on_close_self. Qed.

Lemma on_error_self w (phase : string) (val : exn) :
  self (on_error phase val w).2 = after_close (self w).
Proof. unfold on_error. run_step. now rewrite on_close_self. Qed.

Lemma begin_stream_self w (s : http_stream) :
  exists m, self (begin_stream s w).2 = set__ongoing_streams m (self w).
Proof.
  destruct (h2conn (self w)) as [h|] eqn:Hh.
  - rewrite (begin_stream_run _ h s Hh). cbn [snd self]. eauto.
  - rewrite (begin_stream_without_engine_run _ s Hh).
    exists (_ongoing_streams (self w)). cbn [snd]. now destruct (self w).
Qed.

Lemma end_stream_self w (s : http_stream) :
  exists m, self (end_stream s w).2 = set__ongoing_streams m (self w).
Proof.
  unfold end_stream. rewrite bind_get_self.
  destruct (_ongoing_streams (self w) !! hs_stream_id s).
  - cbn [modify_self snd self]. eauto.
  - exists (_ongoing_streams (self w)). cbn [raise snd].
    now destruct (self w).
Qed.

Lemma add_event_handler_self w (event handler : positive) :
  exists m,
    self (add_event_handler event handler w).2
    = set_event_handlers m (self w)
    /\ (event_handlers (self w) = ∅ -> m = ∅).
Proof.
  unfold add_event_handler. rewrite bind_get_self.
  destruct (event_handlers (self w) !! event) eqn:Hev.
  - cbn [modify_self snd self]. eexists. split; [reflexivity|].
    intros Hempty. now rewrite Hempty, lookup_empty in Hev.
  - exists (event_handlers (self w)). cbn [mret M_ret snd].
    split; [now destruct (self w)|auto].
Qed.

Lemma remove_event_handler_self w (event handler : positive) :
  exists m,
    self (remove_event_handler event handler w).2
    = set_event_handlers m (self w)
    /\ (event_handlers (self w) = ∅ -> m = ∅).
Proof.
  unfold remove_event_handler. rewrite bind_get_self.
  destruct (event_handlers (self w) !! event) as [hs|] eqn:Hev.
  - destruct (bool_decide (handler ∈ hs)).
    + cbn [modify_self snd self]. eexists. split; [reflexivity|].
      intros Hempty. now rewrite Hempty, lookup_empty in Hev.
    + exists (event_handlers (self w)). cbn [raise snd].
      split; [now destruct (self w)|auto].
  - exists (event_handlers (self w)). cbn [raise snd].
    split; [now destruct (self w)|auto].
Qed.

Lemma engine_only_self w w' :
  engine_only not_closing w w' ->
  self w' = set_h2conn (h2conn (self w')) (self w)
  /\ (is_Some (h2conn (self w')) <-> is_Some (h2conn (self w))).
Proof. intros (Hs & Hi & _). auto. Qed.

Lemma frames_flush_not_closing : frames not_closing flush.
Proof.
  eapply frames_mono; [apply engine_io_not_closing|apply frames_flush].
Qed.

(** *** Invariants of every sequence of calls *)

Lemma run_call_same_config (k : call) w :
  same_config (self w) (self (run_call k w)).
Proof.
  destruct k as [ |io|r| |phase val|data|events|s|s| |ev hd|ev hd]; cbn [run_call].
  - destruct (connect_self w) as (t & b & ->). repeat split.
  - destruct (on_connect_self w io) as [-> | (h & ->)]; repeat split.
  - rewrite on_close_self. repeat split.
  - rewrite on_timeout_self. repeat split.
  - rewrite on_error_self. repeat split.
  - destruct (engine_only_self _ _ (frames_data_received data w)) as [-> _].
    repeat split.
  - destruct (engine_only_self _ _ (frames_process_events events w))
      as [-> _].
    repeat split.
  - destruct (begin_stream_self w s) as (m & ->). repeat split.
  - destruct (end_stream_self w s) as (m & ->). repeat split.
  - destruct (engine_only_self _ _ (frames_flush_not_closing w)) as [-> _].
    repeat split.
  - destruct (add_event_handler_self w ev hd) as (m & -> & _).
    repeat split.
  - destruct (remove_event_handler_self w ev hd) as (m & -> & _).
    repeat split.
Qed.

Lemma run_call_no_observers (k : call) w :
  event_handlers (self w) = ∅ -> event_handlers (self (run_call k w)) = ∅.
Proof.
  intros He. destruct k as [ |io|r| |phase val|data|events|s|s| |ev hd|ev hd]; cbn [run_call].
  - destruct (connect_self w) as (t & b & ->). exact He.
  - destruct (on_connect_self w io) as [-> | (h & ->)]; exact He.
  - rewrite on_close_self. exact He.
  - rewrite on_timeout_self. exact He.
  - rewrite on_error_self. exact He.
  - destruct (engine_only_self _ _ (frames_data_received data w)) as [-> _].
    exact He.
  - destruct (engine_only_self _ _ (frames_process_events events w))
      as [-> _].
    exact He.
  - destruct (begin_stream_self w s) as (m & ->). exact He.
  - destruct (end_stream_self w s) as (m & ->). exact He.
  - destruct (engine_only_self _ _ (frames_flush_not_closing w)) as [-> _].
    exact He.
  - destruct (add_event_handler_self w ev hd) as (m & -> & Hm).
    exact (Hm He).
  - destruct (remove_event_handler_self w ev hd) as (m & -> & Hm).
    exact (Hm He).
Qed.

Lemma run_calls_snoc (ks : list call) (k : call) w :
  run_calls (ks ++ [k]) w = run_call k (run_calls ks w).
Proof. unfold run_calls. now rewrite foldl_app. Qed.

(** No sequence of calls changes what the constructor stored: the host, the
    port, the two callbacks, the connect timeout and the TLS options, which
    stay the ones computed from the port at construction. *)
Theorem configuration_never_changes (name : string) (number : Z)
  (ready closed : option positive) (timeout : option Z) (t : Z)
  (ks : list call) :
  let c := self (run_calls ks (new_world name number ready closed timeout t)) in
  host c = name /\ port c = number
  /\ on_connection_ready c = ready /\ on_connection_closed c = closed
  /\ connect_timeout c = timeout
  /\ ssl_context c = parse_ssl_opts number.
Proof.
  induction ks as [|k ks IH] using rev_ind; [repeat split|].
  rewrite run_calls_snoc. cbn zeta in *.
  destruct (run_call_same_config k
              (run_calls ks (new_world name number ready closed timeout t)))
    as (H1 & H2 & H3 & H4 & H5 & H6).
  destruct IH as (I1 & I2 & I3 & I4 & I5 & I6).
  split_and!; congruence.
Qed.

(** No sequence of calls on a newly built connection ever registers an
    observer: [event_handlers] stays empty, whatever is passed to
    [add_event_handler]. *)
Theorem observers_never_registered (name : string) (number : Z)
  (ready closed : option positive) (timeout : option Z) (t : Z)
  (ks : list call) :
  event_handlers
    (self (run_calls ks (new_world name number ready closed timeout t)))
  = ∅.
Proof.
  induction ks as [|k ks IH] using rev_ind; [reflexivity|].
  rewrite run_calls_snoc. now apply run_call_no_observers.
Qed.

(** The stream registry is changed by [begin_stream] and [end_stream] only:
    every other method, the closure routine included, leaves the registered
    handlers where they are. *)
Theorem registry_changed_by_begin_end_only (k : call) w :
  match k with
  | CallBeginStream _ | CallEndStream _ => True
  | _ => _ongoing_streams (self (run_call k w)) = _ongoing_streams (self w)
  end.
Proof.
  destruct k as [ |io|r| |phase val|data|events|s|s| |ev hd|ev hd]; cbn [run_call]; try exact I.
  - destruct (connect_self w) as (t & b & ->). reflexivity.
  - destruct (on_connect_self w io) as [-> | (h & ->)]; reflexivity.
  - now rewrite on_close_self.
  - now rewrite on_timeout_self.
  - now rewrite on_error_self.
  - now destruct (engine_only_self _ _ (frames_data_received data w))
      as [-> _].
  - now destruct (engine_only_self _ _ (frames_process_events events w))
      as [-> _].
  - now destruct (engine_only_self _ _ (frames_flush_not_closing w))
      as [-> _].
  - now destruct (add_event_handler_self w ev hd) as (m & -> & _).
  - now destruct (remove_event_handler_self w ev hd)
      as (m & -> & _).
Qed.

(** *** The connect timeout and the transport that arrives late *)

Lemma on_timeout_calls w (cb : positive) :
  on_connection_closed (self w) = Some cb ->
  (on_timeout w).1 = Ok tt
  /\ effects (on_timeout w).2
     = effects w ++ close_calls (stream (self w))
       ++ [ConnectionClosed cb (Some (HTTPError 599))].
Proof.
  intros Hcb. unfold on_timeout. do 3 run_step.
  erewrite on_close_run by exact Hcb. split; reflexivity.
Qed.

Lemma timed_out_state_after_close c :
  timed_out c = true -> timed_out_state (after_close c).
Proof. intros Ht. unfold timed_out_state. cbn. auto. Qed.

Lemma engine_only_timed_out w w' :
  engine_only not_closing w w' ->
  timed_out_state (self w) ->
  timed_out_state (self w')
  /\ closed_reasons (effects w') = closed_reasons (effects w).
Proof.
  intros Heo (Ht & Hs & Hh & Hc).
  destruct (engine_only_keeps _ _ Heo)
    as (Hc' & Hs' & Hi & Ht' & _ & _ & _ & Hr & _).
  split; [|exact Hr]. unfold timed_out_state.
  rewrite Hc', Hs', Ht'. split_and!; try assumption.
  destruct (h2conn (self w')) as [h|] eqn:Hh'; [|reflexivity].
  destruct (proj1 Hi (ex_intro _ h eq_refl)) as [h0 Hh0]. congruence.
Qed.

Lemma end_stream_effects w (s : http_stream) :
  effects (end_stream s w).2 = effects w.
Proof.
  unfold end_stream. rewrite bind_get_self.
  now destruct (_ongoing_streams (self w) !! hs_stream_id s).
Qed.

Lemma add_event_handler_effects w (event handler : positive) :
  effects (add_event_handler event handler w).2 = effects w.
Proof.
  unfold add_event_handler. rewrite bind_get_self.
  now destruct (event_handlers (self w) !! event).
Qed.

Lemma remove_event_handler_effects w (event handler : positive) :
  effects (remove_event_handler event handler w).2 = effects w.
Proof.
  unfold remove_event_handler. rewrite bind_get_self.
  destruct (event_handlers (self w) !! event) as [hs|]; [|reflexivity].
  now destruct (bool_decide (handler ∈ hs)).
Qed.

(** Short of a new [connect()], no call takes the connection out of the
    timed-out state, and only the calls that run the closure routine call
    [on_connection_closed], each once. *)
Lemma run_call_timed_out (k : call) w (cb : positive) :
  reconnects k = false ->
  on_connection_closed (self w) = Some cb ->
  timed_out_state (self w) ->
  timed_out_state (self (run_call k w))
  /\ closed_reasons (effects (run_call k w))
     = closed_reasons (effects w)
       ++ match closure_reason k with Some r => [r] | None => [] end.
Proof.
  intros Hk Hcb Hw. pose proof Hw as (Ht & Hs & Hh & Hc).
  destruct k as [ |io|r| |phase val|data|events|s|s| |ev hd|ev hd];
    cbn [run_call closure_reason reconnects] in *; rewrite ?app_nil_r.
  - discriminate Hk.
  - rewrite (on_connect_timed_out _ _ Ht). cbn [snd self effects].
    split; [exact Hw|]. rewrite closed_reasons_app. apply app_nil_r.
  - rewrite (on_close_run _ _ cb Hcb). cbn [snd self effects]. rewrite Hs.
    split; [now apply timed_out_state_after_close|].
    now rewrite closed_reasons_app.
  - destruct (on_timeout_calls w cb Hcb) as [_ ->].
    rewrite on_timeout_self, Hs.
    split; [now apply timed_out_state_after_close|].
    now rewrite closed_reasons_app.
  - rewrite on_error_self.
    split; [now apply timed_out_state_after_close|].
    unfold on_error. run_step. erewrite on_close_run by exact Hcb.
    cbn [snd self effects]. rewrite Hs. now rewrite closed_reasons_app.
  - exact (engine_only_timed_out _ _ (frames_data_received data w) Hw).
  - exact (engine_only_timed_out _ _ (frames_process_events events w) Hw).
  - rewrite (begin_stream_without_engine_run _ s Hh). auto.
  - rewrite end_stream_effects.
    destruct (end_stream_self w s) as (m & ->). auto.
  - exact (engine_only_timed_out _ _ (frames_flush_not_closing w) Hw).
  - rewrite add_event_handler_effects.
    destruct (add_event_handler_self w ev hd) as (m & -> & _). auto.
  - rewrite remove_event_handler_effects.
    destruct (remove_event_handler_self w ev hd) as (m & -> & _). auto.
Qed.

Lemma run_calls_timed_out (ks : list call) w (cb : positive) :
  Forall (fun k => reconnects k = false) ks ->
  on_connection_closed (self w) = Some cb ->
  timed_out_state (self w) ->
  timed_out_state (self (run_calls ks w))
  /\ on_connection_closed (self (run_calls ks w)) = Some cb
  /\ closed_reasons (effects (run_calls ks w))
     = closed_reasons (effects w) ++ omap closure_reason ks.
Proof.
  intros Hks Hcb Hw. induction ks as [|k ks IH] using rev_ind.
  - split_and!; [exact Hw|exact Hcb|]. cbn. now rewrite app_nil_r.
  - apply Forall_app in Hks as [Hks Hk]. apply Forall_inv in Hk.
    destruct (IH Hks) as (IHs & IHc & IHr). rewrite run_calls_snoc.
    destruct (run_call_timed_out k _ cb Hk IHc IHs) as [Hs' Hr'].
    destruct (run_call_same_config k (run_calls ks w))
      as (_ & _ & _ & Hcb' & _).
    split_and!; [exact Hs'|congruence|].
    rewrite Hr', IHr, omap_app, <- app_assoc. reflexivity.
Qed.

(** C7 (amended).  The timeout is authoritative until [connect()] is called
    again.  When the connect timer fires, the closure routine runs once: it
    returns normally and calls [on_connection_closed] once, with
    [HTTPError(599)], the request-timeout reason (after closing the transport
    the connection held, if it held one).  Whatever is called on the
    connection afterwards, as long as it is not [connect()], the connection
    stays timed out, and a transport that then reports success is closed on
    arrival: [close()] is the only call made, the connection object is left
    as it was, so the transport is not recorded, no protocol engine is built
    and the connection is not connected; the call returns normally unless
    that [close()] itself raises.  Since the timer fired
    [on_connection_closed] has been called once with [HTTPError(599)] and
    then once more for each call in between that runs the closure routine
    ([on_close], [on_error], a further [on_timeout]), with the reason of
    that call; and when the transport arrives right after the timer fired,
    the callback and the [close()] of the late transport are the only calls
    made besides the [close()] of a transport the connection held. *)
Theorem timeout_authoritative_until_reconnect w (io : iostream)
  (cb : positive) (ks : list call) :
  on_connection_closed (self w) = Some cb ->
  Forall (fun k => reconnects k = false) ks ->
  let w1 := (on_timeout w).2 in
  let w2 := run_calls ks w1 in
  let w3 := (on_connect io w2).2 in
  (on_timeout w).1 = Ok tt
  /\ effects w1
     = effects w ++ close_calls (stream (self w))
       ++ [ConnectionClosed cb (Some (HTTPError 599))]
  /\ (on_connect io w2).1
     = match close_raises io with Some e => Raise e | None => Ok tt end
  /\ effects w3 = effects w2 ++ [StreamClose (fd io)]
  /\ self w3 = self w2
  /\ stream (self w3) = None
  /\ h2conn (self w3) = None
  /\ _is_connected (self w3) = false
  /\ timed_out (self w3) = true
  /\ closed_reasons (effects w3)
     = closed_reasons (effects w)
       ++ Some (HTTPError 599) :: omap closure_reason ks
  /\ effects (on_connect io w1).2
     = effects w ++ close_calls (stream (self w))
       ++ [ConnectionClosed cb (Some (HTTPError 599)); StreamClose (fd io)].
Proof.
  intros Hcb Hks w1 w2 w3.
  destruct (on_timeout_calls w cb Hcb) as [Hok He1]. fold w1 in He1.
  assert (timed_out_state (self w1)) as H1.
  { subst w1. rewrite on_timeout_self.
    now apply timed_out_state_after_close. }
  assert (on_connection_closed (self w1) = Some cb) as Hcb1.
  { subst w1. rewrite on_timeout_self. exact Hcb. }
  destruct (run_calls_timed_out ks w1 cb Hks Hcb1 H1) as (H2 & _ & Hr2).
  fold w2 in H2, Hr2. destruct H2 as (Ht & Hs & Hh & Hc).
  pose proof (on_connect_timed_out w2 io Ht) as Hon.
  pose proof (on_connect_timed_out w1 io (proj1 H1)) as Hon1.
  subst w3. rewrite Hon, Hon1. cbn [fst snd self effects].
  split_and!; try assumption; try reflexivity.
  - rewrite closed_reasons_app, Hr2, He1, !closed_reasons_app.
    rewrite closed_reasons_close_calls. cbn.
    now rewrite app_nil_r, <- app_assoc.
  - rewrite He1, <- !app_assoc. reflexivity.
Qed.

End Further.

(** ** The connection run on the small engine *)

Lemma toy_stream_credit (n : Z) (sid : option Z)
  (h : h2_state (H2Engine := toy_engine)) :
  (increment_flow_control_window (H2Engine := toy_engine) n sid h).1 = Ok tt
  \/ (increment_flow_control_window (H2Engine := toy_engine) n sid h).1
     = Raise StreamClosedError.
Proof. simpl. destruct (bool_decide (sid = Some 99)); auto. Qed.

Lemma toy_connection_credit (n : Z)
  (h : h2_state (H2Engine := toy_engine)) :
  (increment_flow_control_window (H2Engine := toy_engine) n None h).1 = Ok tt.
Proof. reflexivity. Qed.

(** On that batch: two per-stream increments, one connection-scope increment
    of 35, and the flush comes last. *)
Example batch_10_0_25_credit :
  let es := effects (process_events batch_10_0_25 three_streams).2 in
  List.length (stream_increments es) = 2%nat
  /\ (1, 10) ∈ stream_increments es
  /\ (5, 25) ∈ stream_increments es
  /\ connection_increments es = [35]
  /\ drop 6 es
     = [IncrementFlowControlWindow 35 None; DataToSend;
        StreamWrite 9 [x08; x08; x08]].
Proof. vm_compute. repeat split; set_solver. Qed.

(** C1, counterexample.  A transport error followed by an explicit close on
    a connected connection: the callback is called twice, the second time
    with the reason of the second invocation. *)
Lemma closure_twice_calls_back_twice :
  let w := ((on_error "during read" (IOError 104);; on_close None)
              connected).2 in
  closed_reasons (effects w) = [Some (IOError 104); None]
  /\ List.length (closed_reasons (effects w)) <> 1%nat.
Proof. vm_compute. split; [reflexivity|discriminate]. Qed.

Lemma on_close_calls_back_every_time_witness :
  on_connection_closed (self connected) = Some 2%positive
  /\ exists w',
       for_each on_close [Some (IOError 104); None] connected = (Ok tt, w')
       /\ closed_reasons (effects w')
          = closed_reasons (effects connected) ++ [Some (IOError 104); None]
       /\ self w' = after_close (self connected)
       /\ closed_transports (effects w')
          = closed_transports (effects connected)
            ++ closed_transports (close_calls (stream (self connected))).
Proof.
  split; [reflexivity|].
  apply (on_close_calls_back_every_time connected
           [Some (IOError 104); None] 2%positive);
    [reflexivity|discriminate].
Defined.

(** C2, counterexample.  Malformed bytes on a connected connection: decoding
    raises, and afterwards the connection is still connected, still holds its
    transport, and [on_connection_closed] was not called. *)
Lemma decode_error_does_not_close :
  (receive_data (H2Engine := toy_engine) [x00] []).1 = Raise (H2Error 1)
  /\ h2conn (self connected) = Some []
  /\ (data_received [x00] connected).1 = Ok tt
  /\ _is_connected (self (data_received [x00] connected).2) = true
  /\ stream (self (data_received [x00] connected).2) = stream (self connected)
  /\ closed_reasons (effects (data_received [x00] connected).2) = [].
Proof. vm_compute. repeat split. Qed.

Lemma data_received_decode_error_swallowed_witness :
  h2conn (self connected) = Some []
  /\ receive_data (H2Engine := toy_engine) [x00] [] = (Raise (H2Error 1), [x07])
  /\ data_received [x00] connected
     = (Ok tt,
        {| self := set_h2conn (Some (toy_state [x07])) (self connected);
           now := now connected;
           effects := effects connected ++ [ReceiveData [x00]];
           logged :=
             logged connected
             ++ [(INFO, "Received data on IOStream"%string);
                 (INFO,
                  "Could not process events received on the HTTP/2 connection"%string)]
        |}).
Proof.
  split; [reflexivity|]. split; [reflexivity|].
  apply (data_received_decode_error_swallowed connected [x00] [] [x07]
           (H2Error 1)); reflexivity.
Defined.

(** C3, the code at a batch with a connection-termination event.  The batch
    is a data delivery for the registered stream 1 followed by the
    termination: the delivery is made, credit is returned, and that is all:
    the connection is still connected, keeps its transport and its engine,
    and no closure was performed. *)
Lemma connection_terminated_batch_not_closed :
  let w := (data_received [x03; x02] three_streams).2 in
  (data_received [x03; x02] three_streams).1 = Ok tt
  /\ connection_terminated (ledger (imap toy_decode [x03; x02])) = true
  /\ deliveries (effects w) = [(11%positive, toy_decode 0 x03)]
  /\ _is_connected (self w) = true
  /\ stream (self w) = stream (self three_streams)
  /\ h2conn (self w) <> None
  /\ closed_reasons (effects w) = []
  /\ closed_transports (effects w) = [].
Proof. vm_compute. repeat split. discriminate. Qed.

(** C4, counterexample.  [connect()] on a connected connection is not
    rejected: it arms a new timer and starts a new connect. *)
Lemma connect_while_connected_not_rejected :
  _is_connected (self connected) = true
  /\ _connect_timeout_t (self connected) = TNone
  /\ _connect_timeout_t (self (connect connected).2) = THandle 105
  /\ effects (connect connected).2
     = effects connected
       ++ [AddTimeout 105; TcpConnect "localhost" 8080 None].
Proof. vm_compute. repeat split. Qed.

Lemma connect_while_connecting_rejected_witness :
  timeout_truthy (_connect_timeout_t (self connecting)) = true
  /\ connect connecting
     = (Ok tt,
        {| self := self connecting; now := now connecting;
           effects := effects connecting;
           logged :=
             logged connecting
             ++ [(WARNING,
                  "Tried to connect while waiting for a connection!"%string)]
        |}).
Proof.
  split; [reflexivity|].
  apply (connect_while_connecting_rejected connecting). reflexivity.
Defined.

(** C5, counterexample.  A batch whose only data delivery carries no bytes:
    the entry of stream 1 is skipped, and no connection-scope increment and
    no flush follow; the delivery to the handler is the only call made. *)
Lemma zero_batch_no_connection_increment :
  let w := (process_events [data_event 1 1 0] three_streams).2 in
  (process_events [data_event 1 1 0] three_streams).1 = Ok tt
  /\ recv_streams (ledger [data_event 1 1 0]) !! Some 1 = Some 0
  /\ connection_increments (effects w) = []
  /\ List.length (connection_increments (effects w)) <> 1%nat
  /\ effects w = [HandleEvent 11 (data_event 1 1 0)].
Proof. vm_compute. repeat split. discriminate. Qed.

Lemma credit_returned_per_batch_witness :
  h2conn (self three_streams) = Some []
  /\ stream (self three_streams)
     = Some (set_close_callback None io0)
  /\ Forall (well_handled (self three_streams)) batch_10_0_25
  /\ let recv := recv_streams (ledger batch_10_0_25) in
     let items := map_to_list recv in
     exists w' written,
       process_events batch_10_0_25 three_streams = (Ok tt, w')
       /\ effects w'
          = effects three_streams
            ++ dispatch_calls (self three_streams) batch_10_0_25
            ++ increment_calls items
            ++ (if total items =? 0 then []
                else [IncrementFlowControlWindow (total items) None])
            ++ (if negb (total items =? 0)
                   || settings_updated (ledger batch_10_0_25)
                then DataToSend :: written
                else [])
       /\ (written = []
           \/ exists data,
                data <> []
                /\ written
                   = [StreamWrite (fd (set_close_callback None io0)) data])
       /\ (forall sid,
             recv !! sid
             = if existsb (is_data_for sid) batch_10_0_25
               then Some (received_on sid batch_10_0_25)
               else None)
       /\ NoDup (credited items).*1
       /\ (forall sid n,
             (sid, n) ∈ credited items <-> recv !! sid = Some n /\ n <> 0).
Proof.
  split; [reflexivity|]. split; [reflexivity|].
  assert (Hall : Forall (well_handled (self three_streams)) batch_10_0_25).
  { repeat constructor. }
  split; [exact Hall|].
  apply (credit_returned_per_batch (E := toy_engine) toy_stream_credit
           toy_connection_credit three_streams batch_10_0_25 (toy_state [])
           (set_close_callback None io0));
    [reflexivity|reflexivity|exact Hall].
Defined.

(** C6, counterexample.  A data delivery of 10 bytes for stream 7, which is
    not in the registry: no handler gets it, and yet it is in the ledger and
    credit is returned for it, per stream and at connection scope. *)
Lemma unregistered_data_is_credited :
  let w := (process_events [data_event 1 7 10] three_streams).2 in
  _ongoing_streams (self three_streams) !! 7 = None
  /\ deliveries (effects w) = []
  /\ recv_streams (ledger [data_event 1 7 10]) !! Some 7 = Some 10
  /\ stream_increments (effects w) = [(7, 10)]
  /\ connection_increments (effects w) = [10].
Proof. vm_compute. repeat split. Qed.

Lemma unregistered_stream_event_witness :
  ev_stream_id (data_event 1 7 10) = Some 7
  /\ 7 <> 0
  /\ _ongoing_streams (self three_streams) !! 7 = None
  /\ exists w',
       dispatch [data_event 1 7 10] locals0 three_streams
       = (Ok (classify (data_event 1 7 10) locals0), w')
       /\ deliveries (effects w') = deliveries (effects three_streams)
       /\ self w' = self three_streams
       /\ (WARNING, "Received event for unregistered stream"%string)
          ∈ logged w'
       /\ (ev_class (data_event 1 7 10) = DataReceived ->
           recv_streams (classify (data_event 1 7 10) locals0) !! Some 7
           = Some (default 0 (recv_streams locals0 !! Some 7)
                   + flow_controlled_length (data_event 1 7 10)))
       /\ (ev_class (data_event 1 7 10) <> DataReceived ->
           recv_streams (classify (data_event 1 7 10) locals0)
           = recv_streams locals0).
Proof.
  split; [reflexivity|]. split; [lia|]. split; [reflexivity|].
  apply (unregistered_stream_event three_streams (data_event 1 7 10) 7
           locals0); [reflexivity|lia|reflexivity].
Defined.

(** C7, counterexample.  The connect timer fires while the connection is
    connecting, [connect()] is called again, and then a transport reports
    success: [connect()] has reset [timed_out], so the transport is not
    closed but adopted, an engine is built for it and the connection is
    connected.  [on_connect] cannot tell the transport of the attempt that
    timed out from one of the new attempt. *)
Lemma late_transport_adopted_after_reconnect :
  let w := ((on_timeout;; connect;; on_connect io0) connecting).2 in
  stream (self connecting) = None
  /\ timed_out (self (on_timeout connecting).2) = true
  /\ ((on_timeout;; connect;; on_connect io0) connecting).1 = Ok tt
  /\ closed_reasons (effects w) = [Some (HTTPError 599)]
  /\ closed_transports (effects w) = []
  /\ stream (self w) = Some (set_close_callback (error io0) io0)
  /\ is_Some (h2conn (self w))
  /\ _is_connected (self w) = true
  /\ timed_out (self w) = false.
Proof. vm_compute. split_and!; eauto. Qed.

Lemma timeout_authoritative_until_reconnect_witness :
  let ks := [CallDataReceived [x03]; CallOnConnect io0; CallOnClose None;
             CallFlush; CallBeginStream (quiet 11 1)] in
  let w1 := (on_timeout connecting).2 in
  let w2 := run_calls ks w1 in
  let w3 := (on_connect io0 w2).2 in
  on_connection_closed (self connecting) = Some 2%positive
  /\ Forall (fun k => reconnects k = false) ks
  /\ (on_timeout connecting).1 = Ok tt
  /\ effects w1
     = effects connecting ++ close_calls (stream (self connecting))
       ++ [ConnectionClosed 2 (Some (HTTPError 599))]
  /\ (on_connect io0 w2).1
     = match close_raises io0 with Some e => Raise e | None => Ok tt end
  /\ effects w3 = effects w2 ++ [StreamClose (fd io0)]
  /\ self w3 = self w2
  /\ stream (self w3) = None
  /\ h2conn (self w3) = None
  /\ _is_connected (self w3) = false
  /\ timed_out (self w3) = true
  /\ closed_reasons (effects w3)
     = closed_reasons (effects connecting)
       ++ Some (HTTPError 599) :: omap closure_reason ks
  /\ effects (on_connect io0 w1).2
     = effects connecting ++ close_calls (stream (self connecting))
       ++ [ConnectionClosed 2 (Some (HTTPError 599)); StreamClose (fd io0)].
Proof.
  intros ks. split; [reflexivity|].
  split; [repeat constructor|].
  apply (timeout_authoritative_until_reconnect connecting io0 2%positive ks);
    [reflexivity|repeat constructor].
Defined.

(** C8, the code at a transport failure after the connection is established.
    The transport opened with no error; it later fails with [IOError 104] and
    runs its close callback: [on_connection_closed] gets [None], the value of
    [io_stream.error] bound when the callback was set in [on_connect], not the
    error of the failure.  The sibling path [on_error] passes the error it is
    given. *)
Lemma close_callback_reports_stale_error :
  let w := (transport_failed (IOError 104) connected).2 in
  error io0 = None
  /\ stream (self connected) = Some (set_close_callback (error io0) io0)
  /\ closed_reasons (effects w) = [None]
  /\ closed_reasons (effects w) <> [Some (IOError 104)]
  /\ closed_reasons (effects (on_error "during read" (IOError 104)
                                connected).2)
     = [Some (IOError 104)].
Proof. vm_compute. repeat split. discriminate. Qed.

(** C9, the code at a registration followed by the removal.  On a fresh
    connection [add_event_handler] changes nothing: the handler goes into a
    set that is dropped, so the handler is not registered, and removing it
    right away raises [KeyError]. *)
Lemma add_then_remove_event_handler_raises :
  add_event_handler 1 7 fresh = (Ok tt, fresh)
  /\ event_handlers (self (add_event_handler 1 7 fresh).2) !! 1%positive = None
  /\ (add_event_handler 1 7;; remove_event_handler 1 7) fresh
     = (Raise KeyError, fresh).
Proof. vm_compute. repeat split. Qed.

(** C10, counterexample.  [end_stream] for stream id 1 on a connection with
    an empty registry raises [KeyError]. *)
Lemma end_stream_absent_fails :
  _ongoing_streams (self fresh) !! hs_stream_id (quiet 11 1) = None
  /\ (end_stream (quiet 11 1) fresh).1 = Raise KeyError
  /\ (end_stream (quiet 11 1) fresh).1 <> Ok tt.
Proof. vm_compute. repeat split. discriminate. Qed.

Lemma end_stream_absent_raises_witness :
  _ongoing_streams (self fresh) !! hs_stream_id (quiet 11 1) = None
  /\ end_stream (quiet 11 1) fresh = (Raise KeyError, fresh).
Proof.
  split; [reflexivity|].
  apply (end_stream_absent_raises fresh (quiet 11 1)). reflexivity.
Defined.

(** ** The further properties on the samples *)

Lemma connect_without_timeout_raises_witness :
  timeout_truthy (_connect_timeout_t (self fresh_defaults)) = false
  /\ connect_timeout (self fresh_defaults) = None
  /\ connect fresh_defaults
     = (Raise TypeError,
        {| self := set_timed_out false (self fresh_defaults);
           now := now fresh_defaults; effects := effects fresh_defaults;
           logged := logged fresh_defaults |}).
Proof.
  split; [reflexivity|]. split; [reflexivity|].
  apply (connect_without_timeout_raises fresh_defaults); reflexivity.
Defined.

Lemma on_close_without_callback_raises_witness :
  on_connection_closed (self fresh_defaults) = None
  /\ on_close None fresh_defaults
     = (Raise TypeError,
        {| self := after_close (self fresh_defaults);
           now := now fresh_defaults;
           effects :=
             effects fresh_defaults
             ++ close_calls (stream (self fresh_defaults));
           logged :=
             logged fresh_defaults
             ++ [(INFO, "IOStream closed with reason"%string)]
             ++ close_logs (stream (self fresh_defaults)) |}).
Proof.
  split; [reflexivity|].
  apply (on_close_without_callback_raises fresh_defaults None). reflexivity.
Defined.

Lemma on_close_swallows_close_error_witness :
  stream (self connected_bad) = Some (set_close_callback None io_bad)
  /\ close_raises (set_close_callback None io_bad) = Some (IOError 9)
  /\ on_connection_closed (self connected_bad) = Some 2%positive
  /\ on_close (Some (IOError 104)) connected_bad
     = (Ok tt,
        {| self := after_close (self connected_bad);
           now := now connected_bad;
           effects :=
             effects connected_bad
             ++ [StreamClose (fd (set_close_callback None io_bad));
                 ConnectionClosed 2 (Some (IOError 104))];
           logged :=
             logged connected_bad
             ++ [(INFO, "IOStream closed with reason"%string);
                 (ERROR, "Error trying to close stream"%string)] |}).
Proof.
  split; [reflexivity|]. split; [reflexivity|]. split; [reflexivity|].
  apply (on_close_swallows_close_error connected_bad (Some (IOError 104))
           (set_close_callback None io_bad) 2%positive (IOError 9));
    reflexivity.
Defined.

Lemma on_connect_handshake_witness :
  timed_out (self connecting) = false
  /\ let h0 :=
       update_settings (H2Engine := toy_engine) {[ENABLE_PUSH := 0]}
         (initiate_connection H2Connection) in
     exists logs,
       on_connect io0 connecting
       = (Ok tt,
          {| self :=
               set_h2conn (Some (data_to_send h0).2)
                 (set_stream (Some (set_close_callback (error io0) io0))
                    (set__connect_timeout_t TNone
                       (set__is_connected true (self connecting))));
             now := now connecting;
             effects :=
               effects connecting
               ++ [RemoveTimeout (_connect_timeout_t (self connecting));
                   SetNoDelay (fd io0); SetCloseCallback (fd io0) (error io0);
                   NewH2Connection; InitiateConnection;
                   UpdateSettings {[ENABLE_PUSH := 0]};
                   ReadBytes (fd io0) 65535; DataToSend]
               ++ pending_writes io0 (data_to_send h0).1
               ++ [AddCallbackConnectionReady
                     (on_connection_ready (self connecting))];
             logged := logged connecting ++ logs |}).
Proof.
  split; [reflexivity|].
  apply (on_connect_handshake connecting io0). reflexivity.
Defined.

Lemma reconnect_after_timeout_witness :
  stream (self connecting) = None
  /\ on_connection_closed (self connecting) = Some 2%positive
  /\ connect_timeout (self connecting) = Some 5
  /\ exists w',
       (on_timeout;; connect;; on_connect io0) connecting = (Ok tt, w')
       /\ _is_connected (self w') = true
       /\ timed_out (self w') = false
       /\ _connect_timeout_t (self w') = TNone
       /\ stream (self w') = Some (set_close_callback (error io0) io0)
       /\ closed_reasons (effects w')
          = closed_reasons (effects connecting) ++ [Some (HTTPError 599)].
Proof.
  split; [reflexivity|]. split; [reflexivity|]. split; [reflexivity|].
  apply (reconnect_after_timeout connecting io0 5 2%positive); reflexivity.
Defined.

Lemma connect_error_keeps_timer_witness :
  timeout_truthy (_connect_timeout_t (self fresh)) = false
  /\ connect_timeout (self fresh) = Some 5
  /\ stream (self fresh) = None
  /\ on_connection_closed (self fresh) = Some 2%positive
  /\ exists w',
       (connect;; on_error "during connection" (IOError 111)) fresh
       = (Ok tt, w')
       /\ _connect_timeout_t (self w') = THandle (now fresh + 5)
       /\ effects w'
          = effects fresh
            ++ [AddTimeout (now fresh + 5);
                TcpConnect (host (self fresh)) (port (self fresh))
                  (ssl_context (self fresh));
                ConnectionClosed 2 (Some (IOError 111))]
       /\ self (connect w').2 = self w'
       /\ effects (connect w').2 = effects w'
       /\ closed_reasons (effects (on_timeout w').2)
          = closed_reasons (effects fresh)
            ++ [Some (IOError 111); Some (HTTPError 599)].
Proof.
  split; [reflexivity|]. split; [reflexivity|]. split; [reflexivity|].
  split; [reflexivity|].
  apply (connect_error_keeps_timer fresh 5 2%positive (IOError 111));
    reflexivity.
Defined.



(** On [mixed_batch]: the events of streams 3 and 5 reach their handlers, in
    that order; those of stream 7 and of the id 0 reach nobody. *)
Example mixed_batch_deliveries :
  deliveries (effects (process_events mixed_batch mixed_streams).2)
  = [(13%positive, data_event 1 3 4); (15%positive, data_event 2 5 6)].
Proof. vm_compute. reflexivity. Qed.

Lemma propagated_handler_error_aborts_batch_witness :
  Forall (well_handled (self mixed_streams)) [data_event 1 5 6]
  /\ ongoing_stream (self mixed_streams) (ev_stream_id (data_event 2 1 4))
     = Some (leaky 11 1)
  /\ handle_event (leaky 11 1) (data_event 2 1 4)
     = RaisedPropagated (HandlerError 1)
  /\ exists logs,
       process_events ([data_event 1 5 6] ++ data_event 2 1 4
                       :: [data_event 3 5 2]) mixed_streams
       = (Raise (HandlerError 1),
          {| self := self mixed_streams; now := now mixed_streams;
             effects :=
               effects mixed_streams
               ++ dispatch_calls (self mixed_streams) [data_event 1 5 6]
               ++ [HandleEvent (hs_oid (leaky 11 1)) (data_event 2 1 4);
                   HandleException (hs_oid (leaky 11 1)) (HandlerError 1)];
             logged := logged mixed_streams ++ logs |}).
Proof.
  assert (Hpre : Forall (well_handled (self mixed_streams))
                   [data_event 1 5 6]).
  { constructor; [vm_compute; exact I|constructor]. }
  split; [exact Hpre|]. split; [reflexivity|]. split; [reflexivity|].
  apply (propagated_handler_error_aborts_batch mixed_streams
           [data_event 1 5 6] [data_event 3 5 2] (data_event 2 1 4)
           (leaky 11 1) (HandlerError 1));
    [exact Hpre|reflexivity|reflexivity].
Defined.

Lemma connection_scoped_event_not_delivered_witness :
  stream_id_truthy (ev_stream_id (data_event 1 0 9)) = false
  /\ _ongoing_streams (self mixed_streams) !! 0 = Some (quiet 10 0)
  /\ exists w',
       dispatch [data_event 1 0 9] locals0 mixed_streams
       = (Ok (classify (data_event 1 0 9) locals0), w')
       /\ deliveries (effects w') = deliveries (effects mixed_streams)
       /\ self w' = self mixed_streams
       /\ (WARNING, "Received event for connection!"%string) ∈ logged w'.
Proof.
  split; [reflexivity|]. split; [reflexivity|].
  apply (connection_scoped_event_not_delivered mixed_streams
           (data_event 1 0 9) locals0). reflexivity.
Defined.

Lemma begin_stream_replaces_entry_witness :
  h2conn (self three_streams) = Some (toy_state [])
  /\ _ongoing_streams (self three_streams) !! 1 = Some (quiet 11 1)
  /\ let id := get_next_available_stream_id (toy_state []) in
     exists w',
       begin_stream (quiet 21 1) three_streams = (Ok id, w')
       /\ _ongoing_streams (self w') !! id = Some (quiet 21 1)
       /\ (forall j, j <> id ->
             _ongoing_streams (self w') !! j
             = _ongoing_streams (self three_streams) !! j)
       /\ h2conn (self w') = Some (toy_state []).
Proof.
  split; [reflexivity|]. split; [reflexivity|].
  apply (begin_stream_replaces_entry three_streams (toy_state [])
           (quiet 21 1)). reflexivity.
Defined.

Lemma begin_end_round_trip_witness :
  h2conn (self connected) = Some (toy_state [])
  /\ hs_stream_id (quiet 11 1) = get_next_available_stream_id (toy_state [])
  /\ _ongoing_streams (self connected) !! hs_stream_id (quiet 11 1) = None
  /\ exists w',
       (begin_stream (quiet 11 1) ≫= fun _ => end_stream (quiet 11 1))
         connected = (Ok tt, w')
       /\ _ongoing_streams (self w') = _ongoing_streams (self connected)
       /\ (end_stream (quiet 11 1) w').1 = Raise KeyError.
Proof.
  split; [reflexivity|]. split; [reflexivity|]. split; [reflexivity|].
  apply (begin_end_round_trip connected (toy_state []) (quiet 11 1));
    reflexivity.
Defined.

Lemma observers_of_existing_key_witness :
  event_handlers (self observed) !! 1%positive = Some ∅
  /\ (7%positive ∉ (∅ : gset positive))
  /\ let w1 := (add_event_handler 1 7 observed).2 in
     let w2 := (remove_event_handler 1 7 w1).2 in
     event_handlers (self w1) !! 1%positive = Some ({[7%positive]} ∪ ∅)
     /\ add_event_handler 1 7 w1 = (Ok tt, w1)
     /\ (remove_event_handler 1 7 w1).1 = Ok tt
     /\ event_handlers (self w2) = event_handlers (self observed)
     /\ (remove_event_handler 1 7 w2).1 = Raise KeyError.
Proof.
  split; [reflexivity|]. split; [apply not_elem_of_empty|].
  apply (observers_of_existing_key observed 1%positive 7%positive ∅);
    [reflexivity|apply not_elem_of_empty].
Defined.

Lemma engine_error_aborts_credit_witness :
  h2conn (self strict_streams) = Some []
  /\ Forall (well_handled (self strict_streams)) [data_event 1 5 25]
  /\ credited (map_to_list (recv_streams (ledger [data_event 1 5 25])))
     = [(Some 5, 25)]
  /\ (increment_flow_control_window (H2Engine := strict_engine) 25 (Some 5)
        []).1 = Raise (H2Error 3)
  /\ H2Error 3 <> StreamClosedError
  /\ exists h' logs,
       process_events [data_event 1 5 25] strict_streams
       = (Raise (H2Error 3),
          {| self := set_h2conn (Some h') (self strict_streams);
             now := now strict_streams;
             effects :=
               effects strict_streams
               ++ dispatch_calls (self strict_streams) [data_event 1 5 25]
               ++ [IncrementFlowControlWindow 25 (Some 5)];
             logged := logged strict_streams ++ logs |}).
Proof.
  assert (Hall : Forall (well_handled (self strict_streams))
                   [data_event 1 5 25]).
  { constructor; [vm_compute; exact I|constructor]. }
  split; [reflexivity|]. split; [exact Hall|]. split; [reflexivity|].
  split; [reflexivity|]. split; [discriminate|].
  apply (engine_error_aborts_credit (E := strict_engine) strict_streams
           [data_event 1 5 25] [] (Some 5) 25 [] (H2Error 3));
    [reflexivity|exact Hall|reflexivity|reflexivity|discriminate].
Defined.

Lemma registered_stream_gets_its_events_witness :
  h2conn (self connected) = Some (toy_state [])
  /\ get_next_available_stream_id (toy_state []) <> 0
  /\ ev_stream_id (data_event 1 1 10)
     = Some (get_next_available_stream_id (toy_state []))
  /\ (forall e, handle_event (quiet 11 1) (data_event 1 1 10)
                <> RaisedPropagated e)
  /\ deliveries
       (effects
          (process_events [data_event 1 1 10]
             (begin_stream (quiet 11 1) connected).2).2)
     = deliveries (effects connected)
       ++ [(hs_oid (quiet 11 1), data_event 1 1 10)].
Proof.
  split; [reflexivity|]. split; [discriminate|]. split; [reflexivity|].
  split; [discriminate|].
  apply (registered_stream_gets_its_events connected (toy_state [])
           (quiet 11 1) (data_event 1 1 10));
    [reflexivity|discriminate|reflexivity|discriminate].
Defined.
